(** * Function registry, context assembler and conversation loop of the
      Semantic Kernel workshop notebook ([SemanticKernel/sk-main.ipynb]).

    The notebook wires a chat-completion service to a kernel holding plugins.
    The parts written in the notebook itself are embedded from its cells:
    the [kernel.plugins] dictionary with its guarded [del] and its
    enumeration loop, the module-level [history] and [chat_with_assistant].
    The parts whose bodies live outside the notebook (the registration and
    dispatch done by the kernel, the knowledge-base plugin) are modelled from
    the specification and marked as such. *)

From Stdlib Require Import List String Ascii ZArith Bool Arith Lia.
From Stdlib Require Import Sorting.Sorted Sorting.Permutation.
Import ListNotations.
Open Scope string_scope.
Open Scope list_scope.

Set Implicit Arguments.
Set Warnings "-register-all".

(* ===================================================================== *)
(** * Part I: definitions                                                  *)
(* ===================================================================== *)

(** ** Plain data exchanged with plugins *)

(** Python values that cross the plugin boundary ("plain data"). *)
Inductive Data : Type :=
| DNone
| DStr (s : string)
| DNum (z : Z)
| DBool (b : bool)
| DList (items : list Data)
| DDict (fields : list (string * Data)).

(** ** Exceptions

    The Python exceptions the notebook can meet ([KeyError] from [del] on a
    dictionary, [CancelledError] from a cancelled [await], any other
    exception of a collaborator) together with the error taxonomy of the
    specification. [FunctionExecutionError] wraps the failure it reports. *)
Inductive Exn : Type :=
| KeyError (key : string)
| CancelledError
| OtherException (message : string)
| DuplicateNameError
| UnknownFunctionError
| ArgumentValidationError
| FunctionExecutionError (cause : Exn)
| RetrievalUnavailableError
| MaxHopsExceededError
| CompletionUnavailableError.

(** Outcome of a Python call: a returned value or a raised exception. *)
Inductive Outcome (A : Type) : Type :=
| Returned (a : A)
| Raised (e : Exn).

Arguments Returned {A} a.
Arguments Raised {A} e.

(** ** Python dictionaries

    A [dict] keeps its keys in insertion order; [kernel.plugins] and the
    functions of a plugin are such dictionaries keyed by strings. *)
Definition dict (V : Type) : Type := list (string * V).

Fixpoint dict_get {V : Type} (k : string) (d : dict V) : option V :=
  match d with
  | [] => None
  | (k', v) :: t => if String.eqb k' k then Some v else dict_get k t
  end.

(** [k in d] *)
Definition dict_contains {V : Type} (k : string) (d : dict V) : bool :=
  match dict_get k d with
  | Some _ => true
  | None => false
  end.

(** The dictionary without the binding of [k]. *)
Definition dict_remove {V : Type} (k : string) (d : dict V) : dict V :=
  filter (fun kv => negb (String.eqb (fst kv) k)) d.

(** [del d[k]]: raises [KeyError] when the key is absent. *)
Definition dict_del {V : Type} (k : string) (d : dict V) : Outcome (dict V) :=
  if dict_contains k d then Returned (dict_remove k d) else Raised (KeyError k).

(** [d[k] = v]: a present key keeps its position, a new key goes last. *)
Fixpoint dict_set {V : Type} (k : string) (v : V) (d : dict V) : dict V :=
  match d with
  | [] => [(k, v)]
  | (k', v') :: t =>
      if String.eqb k' k then (k, v) :: t else (k', v') :: dict_set k v t
  end.

(** [d.items()] *)
Definition dict_items {V : Type} (d : dict V) : list (string * V) := d.

Definition dict_keys {V : Type} (d : dict V) : list string := map fst d.

(** ** Function descriptors *)

Inductive ParamType : Type :=
| TString
| TNumber
| TBoolean
| TEnum (allowed : list string).

Record Param : Type := {
  p_name : string;
  p_type : ParamType;
  p_required : bool
}.

Record FunctionDescriptor : Type := {
  fd_name : string;
  fd_description : string;
  fd_schema : list Param
}.

(** Arguments of a call: a keyword dictionary. *)
Definition Arguments_ : Type := dict Data.

Section Registry.

(** [W] is the state reachable from the plugin instances held by the
    kernel (the lights of [LightsPlugin], the search client, ...). *)
Variable W : Type.

(** A bound implementation: a callable that may read and change [W] and
    either returns plain data or raises. *)
Definition Implementation : Type := Arguments_ -> W -> Outcome Data * W.

(** One plugin: function name to (descriptor, callable). *)
Definition Plugin : Type := dict (FunctionDescriptor * Implementation).

(** [kernel.plugins]: plugin namespace to plugin. *)
Definition Registry : Type := dict Plugin.

Definition lookup_function (ns name : string) (r : Registry)
  : option (FunctionDescriptor * Implementation) :=
  match dict_get ns r with
  | Some fs => dict_get name fs
  | None => None
  end.

(** Modelled from the spec: the body of [kernel.add_plugin] is SDK code
    that the notebook only calls (cell 3); the registration it performs is
    taken from section 4.1, [register(namespace, descriptor,
    implementation)]: DuplicateNameError when the pair already exists,
    otherwise the entry is inserted into the nested mapping. *)
Definition register (ns : string) (d : FunctionDescriptor)
    (impl : Implementation) (r : Registry) : Outcome unit * Registry :=
  match dict_get ns r with
  | Some fs =>
      if dict_contains (fd_name d) fs
      then (Raised DuplicateNameError, r)
      else (Returned tt, dict_set ns (dict_set (fd_name d) (d, impl) fs) r)
  | None => (Returned tt, dict_set ns [(fd_name d, (d, impl))] r)
  end.

(** Cell 3 of the notebook:
    [if "KnowledgeBase" in kernel.plugins: del kernel.plugins["KnowledgeBase"]],
    for any plugin name. *)
Definition unregister (ns : string) (r : Registry) : Outcome unit * Registry :=
  if dict_contains ns r then
    match dict_del ns r with
    | Returned r' => (Returned tt, r')
    | Raised e => (Raised e, r)
    end
  else (Returned tt, r).

(** Cell 3 of the notebook, the enumeration
    [for plugin_name, plugin in kernel.plugins.items(): for func in plugin:]
    visits these (plugin name, function) pairs in this order. *)
Definition plugin_entries (ns : string) (fs : Plugin)
  : list (string * FunctionDescriptor) :=
  map (fun f => (ns, fst (snd f))) fs.

Definition catalog (r : Registry) : list (string * FunctionDescriptor) :=
  flat_map (fun p => plugin_entries (fst p) (snd p)) (dict_items r).

(** *** Schema validation (section 4.1: type and required-field checks) *)

Definition has_type (t : ParamType) (v : Data) : bool :=
  match t, v with
  | TString, DStr _ => true
  | TNumber, DNum _ => true
  | TBoolean, DBool _ => true
  | TEnum allowed, DStr s => existsb (String.eqb s) allowed
  | _, _ => false
  end.

Definition check_param (args : Arguments_) (p : Param) : bool :=
  match dict_get (p_name p) args with
  | Some v => has_type (p_type p) v
  | None => negb (p_required p)
  end.

Definition validate (schema : list Param) (args : Arguments_) : bool :=
  forallb (check_param args) schema.

(** The failure of an implementation as [invoke] reports it. *)
Definition wrap_failure (o : Outcome Data) : Outcome Data :=
  match o with
  | Returned v => Returned v
  | Raised e => Raised (FunctionExecutionError e)
  end.

(** Modelled from the spec: the dispatch of a requested call happens
    inside the SDK's completion call; [invoke(namespace, name, arguments)]
    is taken from section 4.1. *)
Definition invoke (ns name : string) (args : Arguments_) (r : Registry)
    (w : W) : Outcome Data * W :=
  match lookup_function ns name r with
  | None => (Raised UnknownFunctionError, w)
  | Some (d, impl) =>
      if validate (fd_schema d) args then
        let (o, w') := impl args w in (wrap_failure o, w')
      else (Raised ArgumentValidationError, w)
  end.

(** *** Registration histories

    Administrative operations on the registry, and the registry together
    with the time-ordered log of the registrations that are still live. *)
Inductive Op : Type :=
| Register (ns : string) (d : FunctionDescriptor) (impl : Implementation)
| Unregister (ns : string).

Definition in_namespace (ns : string) (e : string * FunctionDescriptor) : bool :=
  String.eqb (fst e) ns.

Definition apply_op (st : Registry * list (string * FunctionDescriptor))
    (op : Op) : Registry * list (string * FunctionDescriptor) :=
  let (r, log) := st in
  match op with
  | Register ns d impl =>
      match register ns d impl r with
      | (Returned _, r') => (r', log ++ [(ns, d)])
      | (Raised _, r') => (r', log)
      end
  | Unregister ns =>
      (snd (unregister ns r), filter (fun e => negb (in_namespace ns e)) log)
  end.

Definition run (ops : list Op) : Registry * list (string * FunctionDescriptor) :=
  fold_left apply_op ops ([], []).

(** The registry after [ops], starting from the empty kernel. *)
Definition registry_after (ops : list Op) : Registry := fst (run ops).

(** The live registrations after [ops], oldest first. *)
Definition registration_log (ops : list Op) : list (string * FunctionDescriptor) :=
  snd (run ops).

(** Registries as [register] and [unregister] build them: every
    namespace occurs once and holds at least one function. *)
Definition well_formed (r : Registry) : Prop :=
  NoDup (dict_keys r) /\ Forall (fun p => snd p <> []) r.

End Registry.

(** Grouping a time-ordered log by namespace: an entry joins the end of the
    group of its namespace, a new namespace opens a group at the end. *)
Fixpoint insert_in_group (x : string * FunctionDescriptor)
    (l : list (string * FunctionDescriptor)) : list (string * FunctionDescriptor) :=
  match l with
  | [] => [x]
  | y :: t =>
      if negb (existsb (in_namespace (fst x)) t) && in_namespace (fst x) y
      then y :: x :: t
      else y :: insert_in_group x t
  end.

Definition group_by_namespace (log : list (string * FunctionDescriptor))
  : list (string * FunctionDescriptor) :=
  fold_left (fun acc x => insert_in_group x acc) log [].

(** ** Context assembler

    [Plugins/KnowledgeBasePlugin.py] ([search_docs], [ask_with_context]) is
    imported by the notebook but its body is not part of the sources at
    hand; [retrieve] and [assemble] follow section 4.2 of the
    specification. *)

(** A ranked document as the index-search collaborator returns it. The
    relevance score is kept as an integer (a fixed-point reading of the
    service's score): only its order matters here. *)
Record Document : Type := {
  doc_id : string;
  doc_text : string;
  doc_score : Z
}.

Record RetrievedFragment : Type := {
  source_id : string;
  rank : nat;
  excerpt : string;
  relevance : Z
}.

(** The index-search collaborator: [None] when it is unreachable or
    answers with an error. *)
Definition SearchIndex : Type := string -> nat -> option (list Document).

(** Hard character budget, not sentence-aware. *)
Definition truncate (max_len : nat) (s : string) : string :=
  substring 0 max_len s.

(** Stable sort by descending score: a document is placed before the first
    document of the already sorted tail whose score is not higher, so that
    among equal scores the collaborator's order is kept. *)
Fixpoint insert_by_score (d : Document) (l : list Document) : list Document :=
  match l with
  | [] => [d]
  | x :: t =>
      if (doc_score x <=? doc_score d)%Z then d :: x :: t
      else x :: insert_by_score d t
  end.

Fixpoint sort_by_score (l : list Document) : list Document :=
  match l with
  | [] => []
  | d :: t => insert_by_score d (sort_by_score t)
  end.

Definition to_fragment (max_len : nat) (rk : nat) (d : Document) : RetrievedFragment :=
  {| source_id := doc_id d;
     rank := rk;
     excerpt := truncate max_len (doc_text d);
     relevance := doc_score d |}.

(** Ranks are assigned from [rk] upwards along the sequence. *)
Fixpoint number_from (max_len : nat) (rk : nat) (l : list Document)
  : list RetrievedFragment :=
  match l with
  | [] => []
  | d :: t => to_fragment max_len rk d :: number_from max_len (S rk) t
  end.

(** Modelled from the spec: [KnowledgeBasePlugin.search_docs] is missing;
    [retrieve(query, k)] follows section 4.2: ask the collaborator, fail
    with RetrievalUnavailableError when it does, otherwise return the [k]
    best documents, stably sorted by descending score, as ranked fragments
    with their excerpts cut to the maximum length. *)
Definition retrieve (search : SearchIndex) (max_len : nat) (query : string)
    (k : nat) : Outcome (list RetrievedFragment) :=
  match search query k with
  | None => Raised RetrievalUnavailableError
  | Some docs => Returned (number_from max_len 1 (firstn k (sort_by_score docs)))
  end.

(** What a fragment says apart from its rank, and the same for the document
    it was cut from. *)
Definition fragment_body (f : RetrievedFragment) : string * string * Z :=
  (source_id f, excerpt f, relevance f).

Definition document_body (max_len : nat) (d : Document) : string * string * Z :=
  (doc_id d, truncate max_len (doc_text d), doc_score d).

(** Descending order of documents and of fragments. *)
Definition score_ge (a b : Document) : Prop := (doc_score b <= doc_score a)%Z.

Definition relevance_ge (a b : RetrievedFragment) : Prop :=
  (relevance b <= relevance a)%Z.

(** The documents, or fragments, of one given score. *)
Definition has_score (s : Z) (d : Document) : bool := (doc_score d =? s)%Z.

Definition has_relevance (s : Z) (f : RetrievedFragment) : bool :=
  (relevance f =? s)%Z.

Record Citation : Type := {
  cite_source : string;
  cite_excerpt : string
}.

(** The structured payload handed to the reasoning engine. *)
Inductive Payload : Type :=
| NoSupportingDocuments (query : string)
| WithSources (query : string) (cites : list Citation).

Definition cite (f : RetrievedFragment) : Citation :=
  {| cite_source := source_id f; cite_excerpt := excerpt f |}.

(** Modelled from the spec: [KnowledgeBasePlugin.ask_with_context] is
    missing; [assemble(query, fragments)] follows section 4.2: the query
    plus, for each fragment, its source identifier and excerpt, and a
    "no supporting documents found" payload for the empty sequence. *)
Definition assemble (query : string) (fragments : list RetrievedFragment) : Payload :=
  match fragments with
  | [] => NoSupportingDocuments query
  | _ :: _ => WithSources query (map cite fragments)
  end.

Definition newline : string := String (ascii_of_nat 10) EmptyString.

Definition render_citation (c : Citation) : string :=
  ("[" ++ cite_source c ++ "] " ++ cite_excerpt c ++ newline)%string.

(** The payload as text. *)
Definition render (p : Payload) : string :=
  match p with
  | NoSupportingDocuments q =>
      ("Question: " ++ q ++ newline ++ "No supporting documents found.")%string
  | WithSources q cites =>
      ("Question: " ++ q ++ newline ++ "Sources:" ++ newline
         ++ String.concat "" (map render_citation cites))%string
  end.

(** ** Conversation loop (the execution-settings cell and the cell that
    defines [chat_with_assistant]) *)

Inductive FunctionChoiceBehavior : Type :=
| Auto
| Required
| NoneInvoke.

(** [AzureChatPromptExecutionSettings] as the notebook fills it in: the
    function choice behaviour is the only option it sets. *)
Record ExecutionSettings : Type := {
  function_choice_behavior : FunctionChoiceBehavior
}.

(** [execution_settings.function_choice_behavior = FunctionChoiceBehavior.Auto()] *)
Definition execution_settings : ExecutionSettings :=
  {| function_choice_behavior := Auto |}.

Inductive Role : Type :=
| User
| Assistant
| Tool.

(** What the reasoning engine or the loop puts into a message: a text, a
    structured function-call request, or the result of a dispatched call. *)
Inductive Content : Type :=
| Text (s : string)
| FunctionCall (ns name : string) (args : Arguments_)
| FunctionResult (ns name : string) (result : Data).

Record ChatMessage : Type := {
  role : Role;
  content : Content
}.

(** [ChatHistory]: the ordered sequence of messages. *)
Definition ChatHistory : Type := list ChatMessage.

(** [history.add_user_message(user_input)] *)
Definition add_user_message (user_input : string) (h : ChatHistory) : ChatHistory :=
  h ++ [{| role := User; content := Text user_input |}].

(** [history.add_message(result)] *)
Definition add_message (m : ChatMessage) (h : ChatHistory) : ChatHistory :=
  h ++ [m].

(** The text [print] shows for a message. *)
Definition message_text (m : ChatMessage) : string :=
  match content m with
  | Text s => s
  | FunctionCall _ _ _ => ""
  | FunctionResult _ _ _ => ""
  end.

(** What a Python call can hand back to its caller. *)
Inductive PyValue : Type :=
| PyNone
| PyStr (s : string)
| PyMessage (m : ChatMessage).

(** What the session does that an observer can see: lines printed and
    completion requests issued, with the history and settings they carry. *)
Inductive Event : Type :=
| Printed (line : string)
| Requested (h : ChatHistory) (settings : ExecutionSettings).

Section Conversation.

(** The state held by the module-level [kernel] (plugins and what they
    own). *)
Variable W : Type.

(** The module-level objects of the notebook that outlive a call. *)
Record Session : Type := {
  history : ChatHistory;
  kernel : W;
  trace : list Event
}.

(** [chat_completion.get_chat_message_content(chat_history, settings,
    kernel)]: the external reasoning engine. It receives the shared
    history object and the kernel, so it hands both back as it left them,
    with the message it resolved to or the exception it raised. *)
Definition CompletionService : Type :=
  ChatHistory -> ExecutionSettings -> W -> Outcome ChatMessage * ChatHistory * W.

Variable get_chat_message_content : CompletionService.

(** [async def chat_with_assistant(user_input: str)] *)
Definition chat_with_assistant (user_input : string) (s : Session)
  : Outcome PyValue * Session :=
  let h1 := add_user_message user_input (history s) in
  let t1 := trace s ++ [Printed ("User > " ++ user_input)%string;
                        Requested h1 execution_settings] in
  match get_chat_message_content h1 execution_settings (kernel s) with
  | (Returned result, h2, w2) =>
      (Returned PyNone,
       {| history := add_message result h2;
          kernel := w2;
          trace := t1 ++ [Printed ("Assistant > " ++ message_text result)%string] |})
  | (Raised e, h2, w2) =>
      (Raised e, {| history := h2; kernel := w2; trace := t1 |})
  end.

(** A notebook cell awaiting [chat_with_assistant] on each input in turn,
    as the test cells do; an exception ends the cell. *)
Fixpoint run_cell (inputs : list string) (s : Session) : Outcome PyValue * Session :=
  match inputs with
  | [] => (Returned PyNone, s)
  | i :: rest =>
      match chat_with_assistant i s with
      | (Returned _, s') => run_cell rest s'
      | (Raised e, s') => (Raised e, s')
      end
  end.

(** Number of completion requests in a trace. *)
Definition is_request (e : Event) : bool :=
  match e with
  | Requested _ _ => true
  | Printed _ => false
  end.

Definition requests (t : list Event) : nat := List.length (filter is_request t).

(** The collaborator has no effect on the history unless it resolves
    (section 5: asynchronous waits without side effects). *)
Definition quiet_until_resolved (svc : CompletionService) : Prop :=
  forall h st w e h' w', svc h st w = (Raised e, h', w') -> h' = h.

(** The collaborator only ever adds messages to the history it is given. *)
Definition extends_history (svc : CompletionService) : Prop :=
  forall h st w o h' w', svc h st w = (o, h', w') -> exists added, h' = h ++ added.

End Conversation.

Arguments history {W} s.
Arguments kernel {W} s.
Arguments trace {W} s.

(** ** Concrete plugins and collaborators used to exercise the model *)

(** [Plugins/LightsPlugin.py] is not part of the sources at hand; its two
    functions follow the scenario of section 8 of the specification and
    the listing printed by cell 3. The plugin owns the lights. *)
Definition Lights : Type := list (string * bool).

Definition light_data (l : string * bool) : Data :=
  DDict [("name", DStr (fst l)); ("on", DBool (snd l))].

(** Modelled from the spec: [LightsPlugin.get_lights] is missing; it
    returns the list of lights with their state (section 8). *)
Definition get_lights : Implementation Lights :=
  fun _ lights => (Returned (DList (map light_data lights)), lights).

Definition switch (id : string) (on : bool) (lights : Lights) : Lights :=
  map (fun l => if String.eqb (fst l) id then (fst l, on) else l) lights.

(** Modelled from the spec: [LightsPlugin.change_state] is missing;
    [change_state(id, on)] sets the state of the light named [id]
    (section 8) and raises when there is no such light. *)
Definition change_state : Implementation Lights :=
  fun args lights =>
    match dict_get "id" args, dict_get "on" args with
    | Some (DStr id), Some (DBool on) =>
        if dict_contains id lights
        then (Returned (light_data (id, on)), switch id on lights)
        else (Raised (OtherException "no such light"), lights)
    | _, _ => (Raised (OtherException "bad arguments"), lights)
    end.

Definition get_lights_descriptor : FunctionDescriptor :=
  {| fd_name := "get_lights";
     fd_description := "Gets a list of lights and their current state";
     fd_schema := [] |}.

Definition change_state_descriptor : FunctionDescriptor :=
  {| fd_name := "change_state";
     fd_description := "Changes the state of the light";
     fd_schema := [ {| p_name := "id"; p_type := TString; p_required := true |};
                    {| p_name := "on"; p_type := TBoolean; p_required := true |} ] |}.

Definition search_docs_descriptor : FunctionDescriptor :=
  {| fd_name := "search_docs";
     fd_description := "Retrieve top 3 documents from the knowledge base that match a query.";
     fd_schema := [ {| p_name := "query"; p_type := TString; p_required := true |} ] |}.

Definition no_implementation : Implementation Lights :=
  fun _ lights => (Returned DNone, lights).

Definition initial_lights : Lights :=
  [("Table Lamp", false); ("Porch Light", false); ("Chandelier", true)].

(** The kernel after [get_lights] and [change_state] were registered under
    ["Lights"]. *)
Definition lights_registry : Registry Lights :=
  snd (register "Lights" change_state_descriptor change_state
        (snd (register "Lights" get_lights_descriptor get_lights []))).

(** Three registrations that alternate between two namespaces. *)
Definition interleaved_ops : list (Op Lights) :=
  [ Register "Lights" get_lights_descriptor get_lights;
    Register "KnowledgeBase" search_docs_descriptor no_implementation;
    Register "Lights" change_state_descriptor change_state ].

(** An index with five ranked documents, two of them with equal scores. *)
Definition five_documents : list Document :=
  [ {| doc_id := "a.pdf"; doc_text := "alpha contract"; doc_score := 40 |};
    {| doc_id := "b.pdf"; doc_text := "bravo disclosure"; doc_score := 90 |};
    {| doc_id := "c.pdf"; doc_text := "charlie"; doc_score := 70 |};
    {| doc_id := "d.pdf"; doc_text := "delta addendum"; doc_score := 90 |};
    {| doc_id := "e.pdf"; doc_text := "echo"; doc_score := 10 |} ].

Definition five_document_index : SearchIndex := fun _ _ => Some five_documents.

(** A reasoning engine that answers at once and leaves the history alone. *)
Definition answering_service : CompletionService nat :=
  fun h _ n =>
    (Returned {| role := Assistant; content := Text "Here is the current state of all the lights." |},
     h, S n).

(** A completion call that is cancelled while outstanding. *)
Definition cancelled_service : CompletionService nat :=
  fun h _ n => (Raised CancelledError, h, n).

(** A reasoning engine whose answer needs two chained function calls: its
    first two replies are function-call requests, the third is the answer.
    The state counts the replies given so far. *)
Definition chained_call_service : CompletionService nat :=
  fun h _ n =>
    (Returned
       {| role := Assistant;
          content :=
            match n with
            | 0 => FunctionCall "Lights" "get_lights" []
            | 1 => FunctionCall "Lights" "change_state"
                     [("id", DStr "Table Lamp"); ("on", DBool true)]
            | _ => Text "The Table Lamp is now turned on."
            end |},
     h, S n).

Definition fresh_session : Session nat :=
  {| history := []; kernel := 0; trace := [] |}.

(** ** The listing printed by cell 3 *)

(** The text handed to [print] for a plugin: a line break, the marker and
    the plugin name. *)
Definition plugin_header (plugin_name : string) : string :=
  (newline ++ "🧩 Plugin: " ++ plugin_name)%string.

(** The text handed to [print] for a function: its name and description. *)
Definition function_line (d : FunctionDescriptor) : string :=
  ("  └─ " ++ fd_name d ++ ": " ++ fd_description d)%string.

(** The texts printed by
    [for plugin_name, plugin in kernel.plugins.items(): print(...);
     for func in plugin: print(...)], in order. *)
Definition show_plugins {W : Type} (r : Registry W) : list string :=
  flat_map
    (fun p => plugin_header (fst p)
              :: map (fun f => function_line (fst (snd f))) (snd p))
    (dict_items r).

(** A printed text that opens with a line break, as the plugin headers do. *)
Definition is_header (line : string) : bool :=
  match line with
  | EmptyString => false
  | String c _ => Ascii.eqb c (ascii_of_nat 10)
  end.

(** ** What a session leaves behind *)

(** The lines printed, and the histories of the completion requests
    issued, in order. *)
Definition printed (t : list Event) : list string :=
  flat_map (fun e => match e with
                     | Printed line => [line]
                     | Requested _ _ => []
                     end) t.

Definition requested (t : list Event) : list ChatHistory :=
  flat_map (fun e => match e with
                     | Printed _ => []
                     | Requested h _ => [h]
                     end) t.

(** A completion service that never changes the history it is given. *)
Definition read_only {W : Type} (svc : CompletionService W) : Prop :=
  forall h st w o h' w', svc h st w = (o, h', w') -> h' = h.

(** One exchange, a user input and the reply to it: the messages it adds
    to the history and the lines it prints. *)
Definition exchange_messages (x : string * ChatMessage) : list ChatMessage :=
  [ {| role := User; content := Text (fst x) |}; snd x ].

Definition exchange_lines (x : string * ChatMessage) : list string :=
  [ ("User > " ++ fst x)%string; ("Assistant > " ++ message_text (snd x))%string ].

(** The history sent with the request of each exchange when the
    conversation starts from [h]: everything said so far, then the new
    user message. *)
Fixpoint request_histories (h : ChatHistory) (xs : list (string * ChatMessage))
  : list ChatHistory :=
  match xs with
  | [] => []
  | x :: rest =>
      add_user_message (fst x) h :: request_histories (h ++ exchange_messages x) rest
  end.

(** What the completion service answers when the inputs are put to it one
    after another, each with the conversation so far (the earlier inputs
    and its own answers to them) and the kernel state it left; the list
    ends where the service raises. *)
Fixpoint service_replies {W : Type} (svc : CompletionService W)
    (inputs : list string) (h : ChatHistory) (w : W) : list ChatMessage :=
  match inputs with
  | [] => []
  | i :: rest =>
      match svc (add_user_message i h) execution_settings w with
      | (Returned reply, _, w') =>
          reply :: service_replies svc rest (h ++ exchange_messages (i, reply)) w'
      | (Raised _, _, _) => []
      end
  end.

(** A time-ordered log in which the entries of each namespace stand
    together: an entry is followed by an entry of its own namespace or by
    no further entry of that namespace. *)
Fixpoint contiguous_namespaces (log : list (string * FunctionDescriptor)) : bool :=
  match log with
  | [] => true
  | x :: rest =>
      match rest with
      | [] => true
      | y :: _ =>
          in_namespace (fst x) y || negb (existsb (in_namespace (fst x)) rest)
      end && contiguous_namespaces rest
  end.

(** A completion call that is cancelled after a function hop: the service
    has already put the function-call request and its result into the
    history when the cancellation arrives. *)
Definition cancelled_after_hop_service : CompletionService nat :=
  fun h _ n =>
    (Raised CancelledError,
     h ++ [ {| role := Assistant; content := FunctionCall "Lights" "get_lights" [] |};
            {| role := Tool;
               content := FunctionResult "Lights" "get_lights" (DList []) |} ],
     S n).

(** A completion service that is unavailable on its first request and
    answers from then on; the state counts the requests. *)
Definition flaky_service : CompletionService nat :=
  fun h _ n =>
    match n with
    | 0 => (Raised CompletionUnavailableError, h, 1)
    | S _ =>
        (Returned {| role := Assistant; content := Text "The Table Lamp is now turned on." |},
         h, S n)
    end.

(* ===================================================================== *)
(** * Part II: properties                                                  *)
(* ===================================================================== *)

(** ** Dictionaries *)

Section DictFacts.

Context {V : Type}.

Lemma dict_get_set_same (k : string) (v : V) (d : dict V) :
  dict_get k (dict_set k v d) = Some v.
Proof.
  induction d as [|[k' v'] t IH]; simpl.
  - now rewrite String.eqb_refl.
  - destruct (String.eqb k' k) eqn:E; simpl.
    + now rewrite String.eqb_refl.
    + now rewrite E.
Qed.

Lemma dict_get_set_other (k k' : string) (v : V) (d : dict V) :
  k' <> k -> dict_get k' (dict_set k v d) = dict_get k' d.
Proof.
  intros Hne. induction d as [|[k0 v0] t IH]; simpl.
  - destruct (String.eqb k k') eqn:E; [|reflexivity].
    apply String.eqb_eq in E. congruence.
  - destruct (String.eqb k0 k) eqn:E; simpl.
    + apply String.eqb_eq in E. subst k0.
      destruct (String.eqb k k') eqn:E'; [|reflexivity].
      apply String.eqb_eq in E'. congruence.
    + now rewrite IH.
Qed.

Lemma dict_get_remove_same (k : string) (d : dict V) :
  dict_get k (dict_remove k d) = None.
Proof.
  induction d as [|[k' v'] t IH]; simpl; [reflexivity|].
  destruct (String.eqb k' k) eqn:E; simpl; [exact IH|].
  now rewrite E.
Qed.

Lemma dict_get_remove_other (k k' : string) (d : dict V) :
  k' <> k -> dict_get k' (dict_remove k d) = dict_get k' d.
Proof.
  intros Hne. induction d as [|[k0 v0] t IH]; simpl; [reflexivity|].
  destruct (String.eqb k0 k) eqn:E; simpl.
  - apply String.eqb_eq in E. subst k0.
    destruct (String.eqb k k') eqn:E'; [|exact IH].
    apply String.eqb_eq in E'. congruence.
  - now rewrite IH.
Qed.

Lemma dict_get_none_not_key (k : string) (d : dict V) :
  dict_get k d = None <-> ~ In k (dict_keys d).
Proof.
  induction d as [|[k' v'] t IH]; simpl.
  - tauto.
  - destruct (String.eqb k' k) eqn:E.
    + apply String.eqb_eq in E. split; [discriminate|]. intros H. exfalso. auto.
    + apply String.eqb_neq in E. rewrite IH. tauto.
Qed.

Lemma dict_remove_absent (k : string) (d : dict V) :
  dict_get k d = None -> dict_remove k d = d.
Proof.
  induction d as [|[k' v'] t IH]; simpl; [reflexivity|].
  destruct (String.eqb k' k) eqn:E; [discriminate|].
  intros H. simpl. now rewrite IH.
Qed.

Lemma dict_set_absent (k : string) (v : V) (d : dict V) :
  dict_get k d = None -> dict_set k v d = d ++ [(k, v)].
Proof.
  induction d as [|[k' v'] t IH]; simpl; [reflexivity|].
  destruct (String.eqb k' k) eqn:E; [discriminate|].
  intros H. now rewrite IH.
Qed.

Lemma dict_contains_false (k : string) (d : dict V) :
  dict_contains k d = false <-> dict_get k d = None.
Proof.
  unfold dict_contains. destruct (dict_get k d); split; congruence.
Qed.

End DictFacts.

(** ** Function registry *)

Section RegistryFacts.

Variable W : Type.
Implicit Types (r : Registry W) (d : FunctionDescriptor)
  (impl : Implementation W) (ns name : string).

(** A pair is either the one just written or it reads as before. *)
Lemma lookup_after_insert ns name v (fs : Plugin W) r ns' name' :
  dict_get ns r = Some fs \/ (dict_get ns r = None /\ fs = []) ->
  lookup_function ns' name' (dict_set ns (dict_set name v fs) r) =
    if String.eqb ns ns' && String.eqb name name'
    then Some v else lookup_function ns' name' r.
Proof.
  intros Hfs. unfold lookup_function.
  destruct (String.eqb ns ns') eqn:Ens.
  - apply String.eqb_eq in Ens. subst ns'.
    rewrite dict_get_set_same. simpl.
    destruct (String.eqb name name') eqn:En.
    + apply String.eqb_eq in En. subst name'. apply dict_get_set_same.
    + apply String.eqb_neq in En.
      rewrite dict_get_set_other by congruence.
      destruct Hfs as [-> | [-> ->]]; reflexivity.
  - apply String.eqb_neq in Ens. simpl.
    now rewrite dict_get_set_other by congruence.
Qed.

Lemma register_absent ns d impl r :
  lookup_function ns (fd_name d) r = None ->
  register ns d impl r =
    (Returned tt,
     dict_set ns (dict_set (fd_name d) (d, impl)
                    (match dict_get ns r with Some fs => fs | None => [] end)) r).
Proof.
  unfold lookup_function, register.
  destruct (dict_get ns r) as [fs|]; [|reflexivity].
  intros H. apply dict_contains_false in H. now rewrite H.
Qed.

Lemma register_present ns d impl r entry :
  lookup_function ns (fd_name d) r = Some entry ->
  register ns d impl r = (Raised DuplicateNameError, r).
Proof.
  unfold lookup_function, register.
  destruct (dict_get ns r) as [fs|]; [|discriminate].
  intros H. unfold dict_contains. now rewrite H.
Qed.

(** C2. Registering a pair (namespace, name) that is already registered
    fails with DuplicateNameError and leaves the registry as it was, the
    existing entry included; registering an absent pair returns nothing,
    binds the pair to the given descriptor and implementation, and leaves
    every other pair as it was. *)
Theorem register_duplicate_or_insert ns d impl r :
  match lookup_function ns (fd_name d) r with
  | Some entry =>
      register ns d impl r = (Raised DuplicateNameError, r) /\
      lookup_function ns (fd_name d) (snd (register ns d impl r)) = Some entry
  | None =>
      fst (register ns d impl r) = Returned tt /\
      lookup_function ns (fd_name d) (snd (register ns d impl r)) = Some (d, impl) /\
      forall ns' name',
        (ns', name') <> (ns, fd_name d) ->
        lookup_function ns' name' (snd (register ns d impl r)) =
          lookup_function ns' name' r
  end.
Proof.
  destruct (lookup_function ns (fd_name d) r) as [entry|] eqn:L.
  - rewrite (@register_present ns d impl r entry L). simpl. auto.
  - rewrite (@register_absent ns d impl r L). simpl.
    assert (Hfs : dict_get ns r =
                    Some (match dict_get ns r with Some fs => fs | None => [] end) \/
                  (dict_get ns r = None /\
                   match dict_get ns r with Some fs => fs | None => [] end = [])).
    { destruct (dict_get ns r); auto. }
    split; [reflexivity|]. split.
    + rewrite lookup_after_insert by exact Hfs.
      now rewrite !String.eqb_refl.
    + intros ns' name' Hne.
      rewrite lookup_after_insert by exact Hfs.
      destruct (String.eqb ns ns') eqn:E1; [|reflexivity].
      destruct (String.eqb (fd_name d) name') eqn:E2; [|reflexivity].
      apply String.eqb_eq in E1, E2. subst. congruence.
Qed.

Lemma catalog_unregister ns r :
  catalog (snd (unregister ns r)) =
    filter (fun e => negb (in_namespace ns e)) (catalog r).
Proof.
  assert (Hrem : catalog (dict_remove ns r) =
                   filter (fun e => negb (in_namespace ns e)) (catalog r)).
  { unfold catalog, dict_items, dict_remove.
    induction r as [|[k fs] t IH]; simpl; [reflexivity|].
    rewrite filter_app, <- IH.
    destruct (String.eqb k ns) eqn:E; simpl.
    - assert (Hnil : filter (fun e => negb (in_namespace ns e)) (plugin_entries k fs) = []).
      { unfold plugin_entries. induction fs as [|f fs' IHf]; simpl; [reflexivity|].
        unfold in_namespace at 1. simpl. rewrite E. simpl. exact IHf. }
      now rewrite Hnil.
    - assert (Hid : filter (fun e => negb (in_namespace ns e)) (plugin_entries k fs)
                    = plugin_entries k fs).
      { unfold plugin_entries. induction fs as [|f fs' IHf]; simpl; [reflexivity|].
        unfold in_namespace at 1. simpl. rewrite E. simpl. now rewrite IHf. }
      now rewrite Hid. }
  unfold unregister, dict_del.
  destruct (dict_contains ns r) eqn:C; simpl; [exact Hrem|].
  apply dict_contains_false in C.
  rewrite <- Hrem. now rewrite dict_remove_absent by exact C.
Qed.

(** C7. [unregister] always returns normally; afterwards no function is
    registered under the namespace, every function of another namespace
    is bound as before, the remaining catalog keeps its order, and when
    the namespace was absent the registry is the same. *)
Theorem unregister_removes_namespace ns r :
  fst (unregister ns r) = Returned tt /\
  (forall name, lookup_function ns name (snd (unregister ns r)) = None) /\
  (forall ns' name, ns' <> ns ->
     lookup_function ns' name (snd (unregister ns r)) = lookup_function ns' name r) /\
  catalog (snd (unregister ns r)) =
    filter (fun e => negb (in_namespace ns e)) (catalog r) /\
  (dict_contains ns r = false -> unregister ns r = (Returned tt, r)).
Proof.
  assert (Hshape : unregister ns r = (Returned tt, dict_remove ns r)).
  { unfold unregister, dict_del. destruct (dict_contains ns r) eqn:C; [reflexivity|].
    apply dict_contains_false in C. now rewrite dict_remove_absent by exact C. }
  split; [now rewrite Hshape|].
  split; [intros name; rewrite Hshape; simpl; unfold lookup_function;
          now rewrite dict_get_remove_same|].
  split; [intros ns' name Hne; rewrite Hshape; simpl; unfold lookup_function;
          now rewrite dict_get_remove_other|].
  split; [apply catalog_unregister|].
  intros C. unfold unregister. now rewrite C.
Qed.

(** C1. For a registered pair and arguments that pass the descriptor's
    schema, [invoke] gives what the bound implementation gives on those
    arguments, value and state alike; a value is returned verbatim and a
    failure comes back wrapped in FunctionExecutionError. *)
Theorem invoke_agrees_with_implementation ns name d impl args r (w : W) :
  lookup_function ns name r = Some (d, impl) ->
  validate (fd_schema d) args = true ->
  invoke ns name args r w = (wrap_failure (fst (impl args w)), snd (impl args w)) /\
  (forall v, fst (impl args w) = Returned v ->
             fst (invoke ns name args r w) = Returned v) /\
  (forall e, fst (impl args w) = Raised e ->
             fst (invoke ns name args r w) = Raised (FunctionExecutionError e)).
Proof.
  intros L V.
  assert (E : invoke ns name args r w =
                (wrap_failure (fst (impl args w)), snd (impl args w))).
  { unfold invoke. rewrite L, V. now destruct (impl args w). }
  split; [exact E|]. rewrite E. simpl.
  split; intros x Hx; now rewrite Hx.
Qed.

End RegistryFacts.

(** ** The catalog and the order of registration *)

Section GroupingFacts.

Implicit Types (x y : string * FunctionDescriptor)
  (l : list (string * FunctionDescriptor)).

Lemma insert_in_group_skip x l1 l2 :
  existsb (in_namespace (fst x)) l1 = false ->
  insert_in_group x (l1 ++ l2) = l1 ++ insert_in_group x l2.
Proof.
  induction l1 as [|y t IH]; simpl; [reflexivity|].
  intros H. apply orb_false_iff in H. destruct H as [Hy Ht].
  rewrite Hy, andb_false_r. now rewrite IH.
Qed.

Lemma insert_in_group_absent x l :
  existsb (in_namespace (fst x)) l = false ->
  insert_in_group x l = l ++ [x].
Proof.
  intros H. rewrite <- (app_nil_r l) at 1.
  now rewrite insert_in_group_skip.
Qed.

Lemma insert_in_group_last x l1 l2 :
  l1 <> [] ->
  forallb (in_namespace (fst x)) l1 = true ->
  existsb (in_namespace (fst x)) l2 = false ->
  insert_in_group x (l1 ++ l2) = l1 ++ x :: l2.
Proof.
  induction l1 as [|y t IH]; [congruence|].
  intros _ Hall Hnone. simpl in Hall. apply andb_true_iff in Hall.
  destruct Hall as [Hy Ht]. simpl.
  destruct t as [|z t'].
  - simpl. now rewrite Hnone, Hy.
  - assert (Hsome : existsb (in_namespace (fst x)) ((z :: t') ++ l2) = true).
    { simpl in Ht |- *. apply andb_true_iff in Ht. now rewrite (proj1 Ht). }
    rewrite Hsome. simpl negb. cbv iota beta. simpl andb.
    rewrite IH; [reflexivity|discriminate|exact Ht|exact Hnone].
Qed.

Lemma insert_in_group_permutation x l :
  Permutation (x :: l) (insert_in_group x l).
Proof.
  induction l as [|y t IH]; simpl; [apply Permutation_refl|].
  destruct (negb (existsb (in_namespace (fst x)) t) && in_namespace (fst x) y).
  - apply perm_swap.
  - eapply perm_trans; [apply perm_swap|].
    now apply perm_skip.
Qed.

Lemma group_by_namespace_snoc l x :
  group_by_namespace (l ++ [x]) = insert_in_group x (group_by_namespace l).
Proof. unfold group_by_namespace. now rewrite fold_left_app. Qed.

Lemma group_by_namespace_permutation l :
  Permutation l (group_by_namespace l).
Proof.
  induction l as [|x l IH] using rev_ind; [apply Permutation_refl|].
  rewrite group_by_namespace_snoc.
  eapply perm_trans; [|apply insert_in_group_permutation].
  eapply perm_trans;
    [apply Permutation_app_comm|].
  simpl. now apply perm_skip.
Qed.

(** Removing one namespace and grouping commute. *)
Lemma filter_insert_same ns x l :
  in_namespace ns x = true ->
  filter (fun e => negb (in_namespace ns e)) (insert_in_group x l) =
    filter (fun e => negb (in_namespace ns e)) l.
Proof.
  intros Hx. induction l as [|y t IH]; simpl.
  - now rewrite Hx.
  - destruct (negb (existsb (in_namespace (fst x)) t) && in_namespace (fst x) y);
      simpl.
    + now rewrite Hx.
    + now rewrite IH.
Qed.

Lemma existsb_filter_other ns ns' l :
  ns' <> ns ->
  existsb (in_namespace ns') (filter (fun e => negb (in_namespace ns e)) l) =
    existsb (in_namespace ns') l.
Proof.
  intros Hne. induction l as [|y t IH]; simpl; [reflexivity|].
  destruct (in_namespace ns y) eqn:E; simpl.
  - assert (in_namespace ns' y = false) as ->.
    { unfold in_namespace in *. apply String.eqb_eq in E.
      apply String.eqb_neq. congruence. }
    exact IH.
  - now rewrite IH.
Qed.

Lemma filter_insert_other ns x l :
  in_namespace ns x = false ->
  filter (fun e => negb (in_namespace ns e)) (insert_in_group x l) =
    insert_in_group x (filter (fun e => negb (in_namespace ns e)) l).
Proof.
  intros Hx.
  assert (Hne : fst x <> ns).
  { unfold in_namespace in Hx. now apply String.eqb_neq in Hx. }
  induction l as [|y t IH]; simpl.
  - now rewrite Hx.
  - destruct (negb (existsb (in_namespace (fst x)) t) && in_namespace (fst x) y)
      eqn:C.
    + apply andb_true_iff in C. destruct C as [C1 C2].
      assert (Hy : in_namespace ns y = false).
      { unfold in_namespace in *. apply String.eqb_eq in C2.
        apply String.eqb_neq. congruence. }
      simpl. rewrite Hy, Hx. simpl.
      rewrite existsb_filter_other by exact Hne.
      now rewrite C1, C2.
    + simpl. destruct (in_namespace ns y) eqn:Hy; simpl.
      * exact IH.
      * rewrite existsb_filter_other by exact Hne.
        rewrite C. now rewrite IH.
Qed.

Lemma group_by_namespace_filter ns l :
  group_by_namespace (filter (fun e => negb (in_namespace ns e)) l) =
    filter (fun e => negb (in_namespace ns e)) (group_by_namespace l).
Proof.
  induction l as [|x l IH] using rev_ind; [reflexivity|].
  rewrite filter_app, group_by_namespace_snoc. simpl.
  destruct (in_namespace ns x) eqn:Hx; simpl.
  - rewrite app_nil_r, IH. symmetry. now apply filter_insert_same.
  - rewrite group_by_namespace_snoc, IH. symmetry.
    now apply filter_insert_other.
Qed.

Lemma contiguous_namespaces_init l x :
  contiguous_namespaces (l ++ [x]) = true -> contiguous_namespaces l = true.
Proof.
  induction l as [|y t IH]; [reflexivity|].
  simpl. intros H. apply andb_true_iff in H. destruct H as [Hy Ht].
  rewrite (IH Ht), andb_true_r.
  destruct t as [|z t']; [reflexivity|].
  simpl in Hy |- *. rewrite existsb_app in Hy.
  destruct (in_namespace (fst y) z); [reflexivity|].
  simpl in Hy |- *.
  destruct (existsb (in_namespace (fst y)) t'); [discriminate|reflexivity].
Qed.

Lemma insert_in_group_contiguous l x :
  contiguous_namespaces (l ++ [x]) = true -> insert_in_group x l = l ++ [x].
Proof.
  induction l as [|y t IH]; [reflexivity|].
  simpl. intros H. apply andb_true_iff in H. destruct H as [Hy Ht].
  rewrite (IH Ht).
  destruct (negb (existsb (in_namespace (fst x)) t) && in_namespace (fst x) y)
    eqn:C; [|reflexivity].
  apply andb_true_iff in C. destruct C as [C1 C2].
  apply negb_true_iff in C1.
  destruct t as [|z t']; [reflexivity|]. exfalso.
  unfold in_namespace in C2. apply String.eqb_eq in C2.
  simpl in Hy, C1. rewrite C2 in Hy. rewrite existsb_app in Hy.
  apply orb_false_iff in C1. destruct C1 as [Cz Ct].
  rewrite Cz, Ct in Hy. simpl in Hy.
  unfold in_namespace in Hy. rewrite String.eqb_refl in Hy. discriminate.
Qed.

(** A log whose namespaces stand together is its own grouping. *)
Lemma group_by_namespace_contiguous l :
  contiguous_namespaces l = true -> group_by_namespace l = l.
Proof.
  induction l as [|x l IH] using rev_ind; [reflexivity|].
  intros H. rewrite group_by_namespace_snoc.
  rewrite (IH (contiguous_namespaces_init _ _ H)).
  now apply insert_in_group_contiguous.
Qed.

End GroupingFacts.

Section CatalogFacts.

Variable W : Type.
Implicit Types (r : Registry W) (fs : Plugin W) (ns : string).

Lemma plugin_entries_other ns k fs :
  k <> ns -> existsb (in_namespace ns) (plugin_entries k fs) = false.
Proof.
  intros Hne. unfold plugin_entries.
  induction fs as [|f t IH]; simpl; [reflexivity|].
  unfold in_namespace at 1. simpl.
  apply String.eqb_neq in Hne. now rewrite Hne.
Qed.

Lemma plugin_entries_same ns fs :
  forallb (in_namespace ns) (plugin_entries ns fs) = true.
Proof.
  unfold plugin_entries. induction fs as [|f t IH]; simpl; [reflexivity|].
  unfold in_namespace at 1. simpl. now rewrite String.eqb_refl.
Qed.

Lemma catalog_without_namespace ns r :
  ~ In ns (dict_keys r) -> existsb (in_namespace ns) (catalog r) = false.
Proof.
  unfold catalog, dict_items.
  induction r as [|[k fs] t IH]; simpl; [reflexivity|].
  intros H. rewrite existsb_app.
  rewrite plugin_entries_other by (intros ->; apply H; now left).
  apply IH. intros Hin. apply H. now right.
Qed.

Lemma catalog_app r1 r2 : catalog (r1 ++ r2) = catalog r1 ++ catalog r2.
Proof. unfold catalog, dict_items. apply flat_map_app. Qed.

Lemma catalog_extend_plugin ns fs e r :
  NoDup (dict_keys r) ->
  dict_get ns r = Some fs ->
  fs <> [] ->
  catalog (dict_set ns (fs ++ [e]) r) =
    insert_in_group (ns, fst (snd e)) (catalog r).
Proof.
  intros Hnd Hget Hne.
  induction r as [|[k g] t IH]; [discriminate|].
  simpl in Hget |- *. inversion Hnd as [|? ? Hk Ht]; subst.
  destruct (String.eqb k ns) eqn:E.
  - apply String.eqb_eq in E. subst k. injection Hget as ->.
    change (catalog ((ns, fs ++ [e]) :: t))
      with (plugin_entries ns (fs ++ [e]) ++ catalog t).
    change (catalog ((ns, fs) :: t)) with (plugin_entries ns fs ++ catalog t).
    unfold plugin_entries at 1. rewrite map_app. simpl.
    rewrite <- app_assoc. simpl.
    symmetry. apply insert_in_group_last.
    + destruct fs; [congruence|discriminate].
    + apply plugin_entries_same.
    + now apply catalog_without_namespace.
  - apply String.eqb_neq in E.
    change (catalog ((k, g) :: dict_set ns (fs ++ [e]) t))
      with (plugin_entries k g ++ catalog (dict_set ns (fs ++ [e]) t)).
    change (catalog ((k, g) :: t)) with (plugin_entries k g ++ catalog t).
    rewrite IH by assumption.
    symmetry. apply insert_in_group_skip.
    now apply plugin_entries_other.
Qed.

Lemma dict_keys_set_present {V : Type} (k : string) (v v' : V) (d : dict V) :
  dict_get k d = Some v' -> dict_keys (dict_set k v d) = dict_keys d.
Proof.
  induction d as [|[k0 v0] t IH]; simpl; [discriminate|].
  destruct (String.eqb k0 k) eqn:E; simpl.
  - apply String.eqb_eq in E. now subst.
  - intros H. now rewrite IH.
Qed.

Lemma nonempty_set_present ns fs' r :
  fs' <> [] ->
  Forall (fun p : string * Plugin W => snd p <> []) r ->
  Forall (fun p : string * Plugin W => snd p <> []) (dict_set ns fs' r).
Proof.
  intros Hne Hall. induction r as [|[k g] t IH]; simpl.
  - constructor; [exact Hne|constructor].
  - inversion Hall; subst.
    destruct (String.eqb k ns); constructor; simpl; auto.
Qed.

(** A successful registration puts the descriptor at the end of the group
    of its namespace. *)
Lemma catalog_register ns d impl r r' :
  well_formed r ->
  register ns d impl r = (Returned tt, r') ->
  well_formed r' /\ catalog r' = insert_in_group (ns, d) (catalog r).
Proof.
  intros [Hnd Hall] Hreg. unfold register in Hreg.
  destruct (dict_get ns r) as [fs|] eqn:G.
  - destruct (dict_contains (fd_name d) fs) eqn:C; [discriminate|].
    injection Hreg as <-.
    apply dict_contains_false in C.
    rewrite (@dict_set_absent _ (fd_name d) (d, impl) fs C).
    assert (Hfs : fs <> []).
    { clear - G Hall. induction r as [|[k g] t IH]; [discriminate|].
      simpl in G. inversion Hall; subst.
      destruct (String.eqb k ns); [injection G as <-; assumption|auto]. }
    split.
    + split.
      * now rewrite dict_keys_set_present with (v' := fs) by exact G.
      * apply nonempty_set_present; try exact Hall.
        intros Habs. apply app_eq_nil in Habs. destruct Habs; discriminate.
    + now rewrite catalog_extend_plugin with (fs := fs) by assumption.
  - injection Hreg as <-.
    rewrite dict_set_absent by exact G.
    apply dict_get_none_not_key in G.
    split.
    + split.
      * unfold dict_keys. rewrite map_app. simpl.
        apply NoDup_app; [exact Hnd|repeat constructor; simpl; tauto|].
        intros k Hk [<-|[]]. now apply G.
      * apply Forall_app. split; [exact Hall|].
        constructor; [simpl; discriminate|constructor].
    + rewrite catalog_app. simpl. symmetry.
      apply insert_in_group_absent. simpl.
      now apply catalog_without_namespace.
Qed.

Lemma well_formed_unregister ns r :
  well_formed r -> well_formed (snd (unregister ns r)).
Proof.
  intros [Hnd Hall].
  assert (Hshape : snd (unregister ns r) = dict_remove ns r).
  { unfold unregister, dict_del. destruct (dict_contains ns r) eqn:C; [reflexivity|].
    apply dict_contains_false in C. simpl. now rewrite dict_remove_absent by exact C. }
  rewrite Hshape. unfold dict_remove. split.
  - clear Hall Hshape. unfold dict_keys in *.
    induction r as [|[k g] t IH]; simpl; [constructor|].
    inversion Hnd as [|? ? Hk Ht]; subst.
    specialize (IH Ht).
    destruct (negb (String.eqb k ns)); simpl; [|exact IH].
    constructor; [|exact IH].
    intros Hin. apply Hk. apply in_map_iff in Hin.
    destruct Hin as [p [Hp Hin]]. apply filter_In in Hin.
    apply in_map_iff. exists p. tauto.
  - apply Forall_forall. intros p Hp. apply filter_In in Hp.
    rewrite Forall_forall in Hall. now apply Hall.
Qed.

Lemma run_invariant (ops : list (Op W)) r log :
  well_formed r ->
  catalog r = group_by_namespace log ->
  well_formed (fst (fold_left (@apply_op W) ops (r, log))) /\
  catalog (fst (fold_left (@apply_op W) ops (r, log))) =
    group_by_namespace (snd (fold_left (@apply_op W) ops (r, log))).
Proof.
  revert r log. induction ops as [|op ops IH]; intros r log Hwf Hcat.
  - simpl. auto.
  - simpl. destruct op as [ns d impl|ns].
    + destruct (register ns d impl r) as [[[]|e] r'] eqn:R.
      * destruct (@catalog_register ns d impl r r' Hwf R) as [Hwf' Hcat'].
        apply IH; [exact Hwf'|].
        now rewrite group_by_namespace_snoc, <- Hcat.
      * assert (r' = r) as ->.
        { unfold register in R. destruct (dict_get ns r);
            [destruct (dict_contains (fd_name d) _)|]; congruence. }
        now apply IH.
    + apply IH.
      * now apply well_formed_unregister.
      * now rewrite catalog_unregister, group_by_namespace_filter, Hcat.
Qed.

(** C9 (as amended). After any sequence of registrations and
    unregistrations, the catalog holds exactly the live registrations,
    each with its namespace, grouped by namespace: the time-ordered log
    rearranged so that an entry follows the earlier entries of its own
    namespace, and a namespace comes where its oldest live entry put it.
    When the live functions of each namespace were registered one after
    another, the catalog is the log itself: registration order. *)
Theorem catalog_groups_registrations (ops : list (Op W)) :
  catalog (registry_after ops) = group_by_namespace (registration_log ops) /\
  Permutation (registration_log ops) (catalog (registry_after ops)) /\
  (contiguous_namespaces (registration_log ops) = true ->
   catalog (registry_after ops) = registration_log ops).
Proof.
  assert (H : catalog (registry_after ops) =
                group_by_namespace (registration_log ops)).
  { unfold registry_after, registration_log, run.
    apply run_invariant; [|reflexivity].
    split; [constructor|constructor]. }
  split; [exact H|]. split.
  - rewrite H. apply group_by_namespace_permutation.
  - intros Hc. rewrite H. now apply group_by_namespace_contiguous.
Qed.

End CatalogFacts.

(** ** Context assembler *)

Section AssemblerFacts.

Lemma truncate_length (max_len : nat) (s : string) :
  String.length (truncate max_len s) <= max_len.
Proof.
  unfold truncate. revert s.
  induction max_len as [|n IH]; intros s; destruct s as [|c s']; simpl;
    try lia.
  specialize (IH s'). lia.
Qed.

Lemma insert_by_score_Forall (P : Document -> Prop) d l :
  P d -> Forall P l -> Forall P (insert_by_score d l).
Proof.
  intros Hd Hl. induction Hl as [|x t Hx Ht IH]; simpl.
  - now constructor.
  - destruct (doc_score x <=? doc_score d)%Z; repeat constructor; auto.
Qed.

Lemma insert_by_score_sorted d l :
  StronglySorted score_ge l -> StronglySorted score_ge (insert_by_score d l).
Proof.
  intros Hs. induction Hs as [|x t Hs IH Hx]; simpl.
  - repeat constructor.
  - destruct (doc_score x <=? doc_score d)%Z eqn:E.
    + apply Z.leb_le in E. constructor; [now constructor|].
      constructor; [exact E|].
      eapply Forall_impl; [|exact Hx]. unfold score_ge. intros b Hb. lia.
    + apply Z.leb_gt in E. constructor; [exact IH|].
      apply insert_by_score_Forall; [unfold score_ge; lia|exact Hx].
Qed.

Lemma sort_by_score_sorted l : StronglySorted score_ge (sort_by_score l).
Proof.
  induction l as [|d t IH]; simpl; [constructor|].
  now apply insert_by_score_sorted.
Qed.

(** Among equal scores the sort keeps the order it was given. *)
Lemma insert_by_score_stable s d l :
  filter (has_score s) (insert_by_score d l) = filter (has_score s) (d :: l).
Proof.
  induction l as [|x t IH]; [reflexivity|].
  simpl insert_by_score.
  destruct (doc_score x <=? doc_score d)%Z eqn:E; [reflexivity|].
  apply Z.leb_gt in E.
  change (filter (has_score s) (x :: insert_by_score d t))
    with (if has_score s x then x :: filter (has_score s) (insert_by_score d t)
          else filter (has_score s) (insert_by_score d t)).
  rewrite IH. simpl. unfold has_score.
  destruct (doc_score d =? s)%Z eqn:Ed; [|reflexivity].
  apply Z.eqb_eq in Ed.
  assert ((doc_score x =? s)%Z = false) as -> by (apply Z.eqb_neq; lia).
  reflexivity.
Qed.

Lemma sort_by_score_stable s l :
  filter (has_score s) (sort_by_score l) = filter (has_score s) l.
Proof.
  induction l as [|d t IH]; [reflexivity|].
  simpl sort_by_score. rewrite insert_by_score_stable.
  simpl. now rewrite IH.
Qed.

Lemma firstn_Forall {A : Type} (P : A -> Prop) (k : nat) (l : list A) :
  Forall P l -> Forall P (firstn k l).
Proof.
  intros Hl. revert k. induction Hl as [|x t Hx Ht IH]; intros [|k]; simpl;
    constructor; auto.
Qed.

Lemma firstn_sorted {A : Type} (R : A -> A -> Prop) (k : nat) (l : list A) :
  StronglySorted R l -> StronglySorted R (firstn k l).
Proof.
  intros Hs. revert k. induction Hs as [|x t Hs IH Hx]; intros [|k]; simpl;
    try constructor.
  - apply IH.
  - now apply firstn_Forall.
Qed.

Lemma number_from_length max_len rk l :
  List.length (number_from max_len rk l) = List.length l.
Proof.
  revert rk. induction l as [|d t IH]; intros rk; simpl; [reflexivity|].
  now rewrite IH.
Qed.

Lemma number_from_Forall max_len (P : RetrievedFragment -> Prop)
      (Q : Document -> Prop) rk l :
  (forall n d, Q d -> P (to_fragment max_len n d)) ->
  Forall Q l -> Forall P (number_from max_len rk l).
Proof.
  intros HPQ Hl. revert rk.
  induction Hl as [|d t Hd Ht IH]; intros rk; simpl; constructor; auto.
Qed.

Lemma number_from_sorted max_len rk l :
  StronglySorted score_ge l ->
  StronglySorted relevance_ge (number_from max_len rk l).
Proof.
  intros Hs. revert rk.
  induction Hs as [|d t Hs IH Hd]; intros rk; simpl; constructor.
  - apply IH.
  - eapply number_from_Forall; [|exact Hd].
    intros n b Hb. exact Hb.
Qed.

Lemma number_from_bodies max_len s rk l :
  map fragment_body (filter (has_relevance s) (number_from max_len rk l)) =
    map (document_body max_len) (filter (has_score s) l).
Proof.
  revert rk. induction l as [|d t IH]; intros rk; simpl; [reflexivity|].
  unfold has_relevance at 1, has_score at 1. simpl.
  destruct (doc_score d =? s)%Z; simpl; now rewrite IH.
Qed.

Lemma number_from_ranks max_len rk l :
  map rank (number_from max_len rk l) = seq rk (List.length l).
Proof.
  revert rk. induction l as [|d t IH]; intros rk; simpl; [reflexivity|].
  now rewrite IH.
Qed.

(** C3. Whatever the query and [k], [retrieve] either fails with
    RetrievalUnavailableError (exactly when the collaborator does) or
    returns at most [k] fragments, in non-increasing order of relevance,
    fragments of equal relevance in the order the collaborator gave them,
    every excerpt no longer than the configured maximum, ranked from 1. *)
Theorem retrieve_bounded_sorted_truncated (search : SearchIndex)
    (max_len : nat) (query : string) (k : nat) :
  match retrieve search max_len query k with
  | Returned frs =>
      exists docs,
        search query k = Some docs /\
        List.length frs <= k /\
        StronglySorted relevance_ge frs /\
        (forall s, exists rest,
            map (document_body max_len) (filter (has_score s) docs) =
              map fragment_body (filter (has_relevance s) frs) ++ rest) /\
        Forall (fun f => String.length (excerpt f) <= max_len) frs /\
        map rank frs = seq 1 (List.length frs)
  | Raised e => search query k = None /\ e = RetrievalUnavailableError
  end.
Proof.
  unfold retrieve. destruct (search query k) as [docs|]; [|auto].
  exists docs. split; [reflexivity|].
  split; [rewrite number_from_length; apply firstn_le_length|].
  split; [apply number_from_sorted, firstn_sorted, sort_by_score_sorted|].
  split.
  - intros s.
    exists (map (document_body max_len)
              (filter (has_score s) (skipn k (sort_by_score docs)))).
    rewrite number_from_bodies, <- map_app, <- filter_app, firstn_skipn.
    now rewrite sort_by_score_stable.
  - split; [|rewrite number_from_length; apply number_from_ranks].
    apply number_from_Forall with (Q := fun _ => True).
    + intros n d _. simpl. apply truncate_length.
    + apply Forall_forall. auto.
Qed.

(** C8. For every query, assembling no fragments gives the payload that
    says so: the dedicated "no supporting documents" payload, whose text
    is not empty and names the situation, and which no non-empty fragment
    sequence produces; [assemble] yields a payload for every input. *)
Theorem assemble_empty_is_explicit (query : string) :
  assemble query [] = NoSupportingDocuments query /\
  render (assemble query []) =
    ("Question: " ++ query ++ newline ++ "No supporting documents found.")%string /\
  render (assemble query []) <> "" /\
  (forall frs, assemble query frs = assemble query [] <-> frs = []) /\
  (forall f frs, assemble query (f :: frs) = WithSources query (map cite (f :: frs))).
Proof.
  split; [reflexivity|]. split; [reflexivity|].
  split; [simpl; discriminate|].
  split; [|reflexivity].
  intros frs. split.
  - destruct frs; [reflexivity|discriminate].
  - now intros ->.
Qed.

End AssemblerFacts.

(** ** Conversation loop *)

Section ConversationFacts.

Variable W : Type.
Variable svc : CompletionService W.

Implicit Types (s : Session W) (input : string).

(** The messages [chat_with_assistant] itself appends: the user message
    before the request, the result after it when there is one. *)
Lemma chat_with_assistant_history input s :
  history (snd (chat_with_assistant svc input s)) =
    match svc (add_user_message input (history s)) execution_settings (kernel s) with
    | (Returned result, h2, _) => h2 ++ [result]
    | (Raised _, h2, _) => h2
    end.
Proof.
  unfold chat_with_assistant.
  destruct (svc _ _ _) as [[[result|e] h2] w2]; reflexivity.
Qed.

Lemma chat_with_assistant_extends input s :
  extends_history svc ->
  exists added,
    history (snd (chat_with_assistant svc input s)) =
      history s ++ {| role := User; content := Text input |} :: added.
Proof.
  intros Hext. rewrite chat_with_assistant_history.
  destruct (svc _ _ _) as [[o h2] w2] eqn:E.
  destruct (Hext _ _ _ _ _ _ E) as [added ->].
  unfold add_user_message.
  destruct o as [result|e].
  - exists (added ++ [result]). now rewrite <- !app_assoc.
  - exists added. now rewrite <- app_assoc.
Qed.

Lemma run_cell_extends inputs s :
  extends_history svc ->
  exists added, history (snd (run_cell svc inputs s)) = history s ++ added.
Proof.
  intros Hext. revert s. induction inputs as [|i rest IH]; intros s; simpl.
  - exists []. now rewrite app_nil_r.
  - destruct (chat_with_assistant_extends i s Hext) as [a1 H1].
    destruct (chat_with_assistant svc i s) as [[v|e] s'] eqn:E; simpl in H1.
    + destruct (IH s') as [a2 H2]. rewrite H2, H1.
      eexists. now rewrite <- app_assoc.
    + simpl. rewrite H1. eauto.
Qed.

(** C4 (as amended). When the completion request is cancelled or fails,
    the loop propagates the failure, appends no reply and prints no
    [Assistant >] line, and nothing is rolled back: the history is the one
    the service left. The user message added before the request is still
    there, followed by whatever the service had appended before it
    raised, so the history is not the one from before the call; it is the
    history the request was issued with only when the service had not
    touched it. *)
Theorem failed_request_is_not_rolled_back input s e h2 w2 :
  svc (add_user_message input (history s)) execution_settings (kernel s) =
    (Raised e, h2, w2) ->
  fst (chat_with_assistant svc input s) = Raised e /\
  history (snd (chat_with_assistant svc input s)) = h2 /\
  (forall added,
      h2 = add_user_message input (history s) ++ added ->
      history (snd (chat_with_assistant svc input s)) =
        history s ++ {| role := User; content := Text input |} :: added /\
      history (snd (chat_with_assistant svc input s)) <> history s) /\
  (quiet_until_resolved svc ->
     history (snd (chat_with_assistant svc input s)) =
       add_user_message input (history s)) /\
  printed (trace (snd (chat_with_assistant svc input s))) =
    printed (trace s) ++ [("User > " ++ input)%string].
Proof.
  intros E.
  assert (Hh : history (snd (chat_with_assistant svc input s)) = h2).
  { unfold chat_with_assistant. now rewrite E. }
  split; [unfold chat_with_assistant; now rewrite E|].
  split; [exact Hh|]. split; [|split].
  - intros added ->. rewrite Hh. unfold add_user_message.
    rewrite <- app_assoc. simpl. split; [reflexivity|].
    intros Heq. apply (f_equal (@List.length ChatMessage)) in Heq.
    rewrite length_app in Heq. simpl in Heq. lia.
  - intros Hquiet. rewrite Hh. exact (Hquiet _ _ _ _ _ _ E).
  - unfold chat_with_assistant. rewrite E. simpl.
    unfold printed. rewrite flat_map_app. simpl. reflexivity.
Qed.

(** C5. The loop only appends: one call adds the user message and then,
    when the request resolves, the result exactly once (nothing when it
    fails) at the end of the history the collaborator handed back; with a
    collaborator that itself only adds messages, everything in the history
    before a call, or before a whole cell of calls, is still there,
    unchanged and in place, afterwards. *)
Theorem history_append_only input s :
  extends_history svc ->
  history (snd (chat_with_assistant svc input s)) =
    match svc (add_user_message input (history s)) execution_settings (kernel s) with
    | (Returned result, h2, _) => add_message result h2
    | (Raised _, h2, _) => h2
    end /\
  (exists added,
      history (snd (chat_with_assistant svc input s)) =
        history s ++ {| role := User; content := Text input |} :: added) /\
  (forall inputs, exists added,
      history (snd (run_cell svc inputs s)) = history s ++ added).
Proof.
  intros Hext. split; [apply chat_with_assistant_history|].
  split; [now apply chat_with_assistant_extends|].
  intros inputs. now apply run_cell_extends.
Qed.

(** C10. [chat_with_assistant] hands nothing back: whenever it returns,
    the value is [None]. The reply reaches the outside only through the
    line printed and the message appended to the shared history, and the
    next call starts from the history and kernel state this one left. *)
Theorem chat_with_assistant_returns_none input s :
  (forall v s', chat_with_assistant svc input s = (Returned v, s') -> v = PyNone) /\
  (forall result h2 w2,
      svc (add_user_message input (history s)) execution_settings (kernel s) =
        (Returned result, h2, w2) ->
      chat_with_assistant svc input s =
        (Returned PyNone,
         {| history := h2 ++ [result];
            kernel := w2;
            trace := trace s ++
              [Printed ("User > " ++ input)%string;
               Requested (add_user_message input (history s)) execution_settings;
               Printed ("Assistant > " ++ message_text result)%string] |})) /\
  (forall input2,
      let s1 := snd (chat_with_assistant svc input s) in
      exists o h3 w3,
        svc (add_user_message input2 (history s1)) execution_settings (kernel s1) =
          (o, h3, w3) /\
        kernel (snd (chat_with_assistant svc input2 s1)) = w3 /\
        In (Requested (history s1 ++ [{| role := User; content := Text input2 |}])
              execution_settings)
           (trace (snd (chat_with_assistant svc input2 s1)))).
Proof.
  split; [|split].
  - intros v s'. unfold chat_with_assistant.
    destruct (svc _ _ _) as [[[result|e] h2] w2]; intros H; inversion H.
    reflexivity.
  - intros result h2 w2 E. unfold chat_with_assistant. rewrite E.
    unfold add_message. now rewrite <- app_assoc.
  - intros input2 s1.
    destruct (svc (add_user_message input2 (history s1)) execution_settings
                (kernel s1)) as [[o h3] w3] eqn:E.
    exists o, h3, w3. split; [reflexivity|].
    unfold chat_with_assistant. rewrite E.
    destruct o as [result|e]; simpl; (split; [reflexivity|]).
    + apply in_or_app. left. apply in_or_app. right. right. now left.
    + apply in_or_app. right. right. now left.
Qed.

(** C6 (as amended). For every user message the loop issues exactly one
    completion request and ends when that request resolves or raises. It
    counts no hops and raises nothing of its own: an exception leaves it
    only if the completion service raised it, and any reply, a function-call
    request included, is appended and ends the call normally. *)
Theorem one_request_per_message input s :
  requests (trace (snd (chat_with_assistant svc input s))) =
    S (requests (trace s)) /\
  (forall e, fst (chat_with_assistant svc input s) = Raised e ->
     exists h2 w2,
       svc (add_user_message input (history s)) execution_settings (kernel s) =
         (Raised e, h2, w2)) /\
  (forall result h2 w2,
     svc (add_user_message input (history s)) execution_settings (kernel s) =
       (Returned result, h2, w2) ->
     fst (chat_with_assistant svc input s) = Returned PyNone /\
     history (snd (chat_with_assistant svc input s)) = h2 ++ [result]).
Proof.
  unfold chat_with_assistant.
  destruct (svc _ _ _) as [[[result|e] h2] w2]; simpl.
  - split; [|split].
    + unfold requests. rewrite !filter_app, !length_app. simpl. lia.
    + discriminate.
    + intros r h w H. inversion H. auto.
  - split; [|split].
    + unfold requests. rewrite !filter_app, !length_app. simpl. lia.
    + intros e' H. inversion H. eauto.
    + discriminate.
Qed.

End ConversationFacts.

(** ** The model at work on concrete inputs *)

(** The scenario of the lights: after [change_state("Table Lamp", true)]
    went through the registry, [get_lights()] shows the lamp switched on. *)
Example lights_round_trip :
  let (_, lights) :=
    invoke "Lights" "change_state"
      [("id", DStr "Table Lamp"); ("on", DBool true)] lights_registry initial_lights in
  fst (invoke "Lights" "get_lights" [] lights_registry lights) =
    Returned (DList [ light_data ("Table Lamp", true);
                      light_data ("Porch Light", false);
                      light_data ("Chandelier", true) ]).
Proof. reflexivity. Qed.

Example invoke_rejects_bad_arguments :
  invoke "Lights" "change_state" [("id", DStr "Table Lamp")] lights_registry
    initial_lights = (Raised ArgumentValidationError, initial_lights) /\
  invoke "Lights" "dim" [] lights_registry initial_lights =
    (Raised UnknownFunctionError, initial_lights).
Proof. split; reflexivity. Qed.

Lemma invoke_agrees_with_implementation_witness :
  invoke "Lights" "change_state"
    [("id", DStr "Table Lamp"); ("on", DBool true)] lights_registry initial_lights =
  (Returned (light_data ("Table Lamp", true)),
   [("Table Lamp", true); ("Porch Light", false); ("Chandelier", true)]).
Proof.
  exact (proj1 (@invoke_agrees_with_implementation Lights
                  "Lights" "change_state" change_state_descriptor change_state
                  [("id", DStr "Table Lamp"); ("on", DBool true)]
                  lights_registry initial_lights eq_refl eq_refl)).
Defined.

(** Cell 3 as the notebook runs it: each plugin is registered as a whole,
    so the catalog and the registration log agree. *)
Example notebook_catalog :
  catalog (registry_after
             [ Register "Lights" change_state_descriptor change_state;
               Register "Lights" get_lights_descriptor get_lights;
               Unregister Lights "KnowledgeBase";
               Register "KnowledgeBase" search_docs_descriptor no_implementation ]) =
    [ ("Lights", change_state_descriptor);
      ("Lights", get_lights_descriptor);
      ("KnowledgeBase", search_docs_descriptor) ].
Proof. reflexivity. Qed.

Lemma catalog_groups_registrations_witness :
  catalog (registry_after
             [ Register "Lights" change_state_descriptor change_state;
               Register "Lights" get_lights_descriptor get_lights;
               Unregister Lights "KnowledgeBase";
               Register "KnowledgeBase" search_docs_descriptor no_implementation ]) =
    registration_log
      [ Register "Lights" change_state_descriptor change_state;
        Register "Lights" get_lights_descriptor get_lights;
        Unregister Lights "KnowledgeBase";
        Register "KnowledgeBase" search_docs_descriptor no_implementation ].
Proof.
  exact (proj2 (proj2 (@catalog_groups_registrations Lights
                         [ Register "Lights" change_state_descriptor change_state;
                           Register "Lights" get_lights_descriptor get_lights;
                           Unregister Lights "KnowledgeBase";
                           Register "KnowledgeBase" search_docs_descriptor
                             no_implementation ])) eq_refl).
Defined.

(** C9 (as stated) fails: when a function joins a namespace after another
    namespace was registered, the catalog lists it with its namespace,
    ahead of the descriptor that was registered before it. *)
Lemma catalog_not_in_registration_order :
  registration_log interleaved_ops =
    [ ("Lights", get_lights_descriptor);
      ("KnowledgeBase", search_docs_descriptor);
      ("Lights", change_state_descriptor) ] /\
  catalog (registry_after interleaved_ops) =
    [ ("Lights", get_lights_descriptor);
      ("Lights", change_state_descriptor);
      ("KnowledgeBase", search_docs_descriptor) ] /\
  catalog (registry_after interleaved_ops) <> registration_log interleaved_ops.
Proof.
  split; [reflexivity|]. split; [reflexivity|].
  intros H. vm_compute in H. discriminate H.
Qed.

(** Five ranked documents and [k = 3]: three fragments, best first, the two
    documents of score 90 in the order the index gave them, excerpts cut to
    five characters. *)
Example retrieve_three_of_five :
  retrieve five_document_index 5 "seller disclosures" 3 =
    Returned
      [ {| source_id := "b.pdf"; rank := 1; excerpt := "bravo"; relevance := 90 |};
        {| source_id := "d.pdf"; rank := 2; excerpt := "delta"; relevance := 90 |};
        {| source_id := "c.pdf"; rank := 3; excerpt := "charl"; relevance := 70 |} ].
Proof. reflexivity. Qed.

Example retrieve_unavailable :
  retrieve (fun _ _ => None) 500 "seller disclosures" 3 =
    Raised RetrievalUnavailableError.
Proof. reflexivity. Qed.

(** C4 (as stated) fails: a request cancelled after a function hop leaves
    the messages of that hop in the history, and even a service that
    touches nothing leaves the user message, so the history after the
    cancelled call is neither the one the request was issued with nor the
    one from before the call. *)
Lemma cancelled_request_leaves_partial_turn :
  fst (chat_with_assistant cancelled_after_hop_service
         "Can you turn on the table lamp light?" fresh_session) =
    Raised CancelledError /\
  history (snd (chat_with_assistant cancelled_after_hop_service
                  "Can you turn on the table lamp light?" fresh_session)) =
    [ {| role := User; content := Text "Can you turn on the table lamp light?" |};
      {| role := Assistant; content := FunctionCall "Lights" "get_lights" [] |};
      {| role := Tool; content := FunctionResult "Lights" "get_lights" (DList []) |} ] /\
  history (snd (chat_with_assistant cancelled_after_hop_service
                  "Can you turn on the table lamp light?" fresh_session)) <>
    add_user_message "Can you turn on the table lamp light?" (history fresh_session) /\
  history (snd (chat_with_assistant cancelled_service
                  "Can you turn on the table lamp light?" fresh_session)) <>
    history fresh_session.
Proof.
  split; [reflexivity|]. split; [reflexivity|].
  split; intros H; vm_compute in H; discriminate H.
Qed.

Lemma failed_request_is_not_rolled_back_witness :
  fst (chat_with_assistant cancelled_after_hop_service
         "Can you turn on the table lamp light?" fresh_session) =
    Raised CancelledError /\
  history (snd (chat_with_assistant cancelled_after_hop_service
                  "Can you turn on the table lamp light?" fresh_session)) =
    add_user_message "Can you turn on the table lamp light?" (history fresh_session)
      ++ [ {| role := Assistant; content := FunctionCall "Lights" "get_lights" [] |};
           {| role := Tool;
              content := FunctionResult "Lights" "get_lights" (DList []) |} ].
Proof.
  pose proof (@failed_request_is_not_rolled_back nat cancelled_after_hop_service
                "Can you turn on the table lamp light?" fresh_session
                CancelledError _ 1 eq_refl) as [H1 [H2 _]].
  split; [exact H1|exact H2].
Defined.

Lemma history_append_only_witness :
  exists added,
    history (snd (run_cell answering_service
                    ["Can you show me the current state of all the lights?";
                     "What about now? Are all the lights on?"] fresh_session)) =
      history fresh_session ++ added.
Proof.
  assert (E : extends_history answering_service).
  { intros h st w o h' w' H. inversion H. exists []. symmetry. apply app_nil_r. }
  exact (proj2 (proj2 (@history_append_only nat answering_service
                         "" fresh_session E)) _).
Defined.

(** C6 (as stated) fails: the notebook's settings carry no hop bound, and
    for a message whose answer needs two chained function calls the loop
    makes its single request, appends the first function-call request as
    the reply and returns normally; MaxHopsExceededError is not raised. *)
Lemma chained_calls_meet_no_hop_limit :
  chat_with_assistant chained_call_service
    "Can you turn on the table lamp light?" fresh_session =
    (Returned PyNone,
     {| history :=
          [ {| role := User; content := Text "Can you turn on the table lamp light?" |};
            {| role := Assistant; content := FunctionCall "Lights" "get_lights" [] |} ];
        kernel := 1;
        trace :=
          [ Printed "User > Can you turn on the table lamp light?";
            Requested
              [ {| role := User;
                   content := Text "Can you turn on the table lamp light?" |} ]
              execution_settings;
            Printed "Assistant > " ] |}) /\
  fst (chat_with_assistant chained_call_service
         "Can you turn on the table lamp light?" fresh_session) <>
    Raised MaxHopsExceededError.
Proof.
  split; [reflexivity|]. simpl. discriminate.
Qed.

(** ** Further properties of the guarded delete and of the listing *)

Section UnregisterFacts.

Variable W : Type.
Implicit Types (r : Registry W) (ns : string).

Lemma unregister_as_remove ns r :
  unregister ns r = (Returned tt, dict_remove ns r).
Proof.
  unfold unregister, dict_del. destruct (dict_contains ns r) eqn:C; [reflexivity|].
  apply dict_contains_false in C. now rewrite dict_remove_absent by exact C.
Qed.

Lemma dict_remove_commute {V : Type} (a b : string) (d : dict V) :
  dict_remove a (dict_remove b d) = dict_remove b (dict_remove a d).
Proof.
  unfold dict_remove. induction d as [|[k v] t IH]; simpl; [reflexivity|].
  destruct (String.eqb k b) eqn:Eb; destruct (String.eqb k a) eqn:Ea; simpl;
    rewrite ?Eb, ?Ea; simpl; now rewrite IH.
Qed.

(** X1. Running the guarded delete again changes nothing and still returns
    normally, and guarded deletes of two plugins give the same registry in
    either order. *)
Theorem unregister_idempotent_commutes ns ns' r :
  unregister ns (snd (unregister ns r)) = unregister ns r /\
  snd (unregister ns (snd (unregister ns' r))) =
    snd (unregister ns' (snd (unregister ns r))).
Proof.
  repeat (rewrite unregister_as_remove; simpl).
  split; [|apply dict_remove_commute].
  f_equal. apply dict_remove_absent, dict_get_remove_same.
Qed.

Lemma dict_keys_remove {V : Type} (k : string) (d : dict V) :
  dict_keys (dict_remove k d) =
    filter (fun k' => negb (String.eqb k' k)) (dict_keys d).
Proof.
  unfold dict_keys, dict_remove.
  induction d as [|[k0 v0] t IH]; simpl; [reflexivity|].
  destruct (String.eqb k0 k); simpl; now rewrite IH.
Qed.

(** X2. In a registry whose plugin names are distinct, the guarded delete
    of a plugin that is present removes exactly one plugin; the names of
    the others stay in their order. *)
Theorem unregister_removes_one_plugin ns r :
  NoDup (dict_keys r) ->
  dict_contains ns r = true ->
  List.length (snd (unregister ns r)) + 1 = List.length r /\
  dict_keys (snd (unregister ns r)) =
    filter (fun k => negb (String.eqb k ns)) (dict_keys r) /\
  dict_contains ns (snd (unregister ns r)) = false.
Proof.
  intros Hnd Hin. rewrite unregister_as_remove. simpl.
  split; [|split].
  - induction r as [|[k g] t IH]; [discriminate|].
    inversion Hnd as [|? ? Hk Ht]; subst.
    unfold dict_contains in Hin. simpl in Hin |- *.
    destruct (String.eqb k ns) eqn:E; simpl.
    + apply String.eqb_eq in E. subst k.
      fold (dict_remove ns t).
      rewrite dict_remove_absent by (now apply dict_get_none_not_key).
      lia.
    + fold (dict_remove ns t). f_equal. apply IH; [exact Ht|exact Hin].
  - apply dict_keys_remove.
  - apply dict_contains_false, dict_get_remove_same.
Qed.

Lemma is_header_plugin_header ns : is_header (plugin_header ns) = true.
Proof. reflexivity. Qed.

Lemma is_header_function_line d : is_header (function_line d) = false.
Proof. reflexivity. Qed.

Lemma filter_namespace_absent ns (l : list (string * FunctionDescriptor)) :
  existsb (in_namespace ns) l = false -> filter (in_namespace ns) l = [].
Proof.
  induction l as [|x t IH]; simpl; [reflexivity|].
  intros H. apply orb_false_iff in H. destruct H as [Hx Ht].
  rewrite Hx. now apply IH.
Qed.

Lemma filter_namespace_same ns (fs : Plugin W) :
  filter (in_namespace ns) (plugin_entries ns fs) = plugin_entries ns fs.
Proof.
  unfold plugin_entries. induction fs as [|f t IH]; simpl; [reflexivity|].
  unfold in_namespace at 1. simpl. rewrite String.eqb_refl. now rewrite IH.
Qed.

(** The section of the listing that belongs to a plugin name: its header,
    then the lines of the catalog entries of that namespace. *)
Lemma listing_sections r :
  NoDup (dict_keys r) ->
  show_plugins r =
    flat_map
      (fun ns => plugin_header ns
                 :: map (fun e => function_line (snd e))
                      (filter (in_namespace ns) (catalog r)))
      (dict_keys r).
Proof.
  unfold show_plugins, dict_items.
  induction r as [|[k fs] t IH]; intros Hnd; [reflexivity|].
  inversion Hnd as [|? ? Hk Ht]; subst.
  change (catalog ((k, fs) :: t)) with (plugin_entries k fs ++ catalog t).
  cbn [flat_map dict_keys map fst snd]. f_equal.
  - f_equal. rewrite filter_app, filter_namespace_same.
    rewrite filter_namespace_absent by (now apply catalog_without_namespace).
    rewrite app_nil_r. unfold plugin_entries. now rewrite map_map.
  - rewrite (IH Ht). clear IH. fold (dict_keys t).
    assert (Hext : forall keys,
               ~ In k keys ->
               flat_map
                 (fun ns => plugin_header ns
                            :: map (fun e => function_line (snd e))
                                 (filter (in_namespace ns) (catalog t))) keys =
               flat_map
                 (fun ns => plugin_header ns
                            :: map (fun e => function_line (snd e))
                                 (filter (in_namespace ns)
                                    (plugin_entries k fs ++ catalog t))) keys).
    { induction keys as [|ns keys IHk]; intros Hn; [reflexivity|].
      cbn [flat_map]. rewrite IHk by (intros Hin; apply Hn; now right).
      rewrite filter_app.
      rewrite (@filter_namespace_absent ns (plugin_entries k fs)); [reflexivity|].
      apply plugin_entries_other. intros ->. apply Hn. now left. }
    now apply Hext.
Qed.

(** X3. The listing loop prints, for each plugin in the order of
    [kernel.plugins], its header and directly under it one line for each
    function of that plugin, in catalog order: with distinct plugin names
    the listing is, name by name, the header followed by the lines of the
    catalog entries of that namespace. Without the headers the listing is
    the catalog, entry by entry; an empty kernel prints nothing and a
    plugin without functions only its header. *)
Theorem listing_matches_catalog r :
  (NoDup (dict_keys r) ->
   show_plugins r =
     flat_map
       (fun ns => plugin_header ns
                  :: map (fun e => function_line (snd e))
                       (filter (in_namespace ns) (catalog r)))
       (dict_keys r)) /\
  filter (fun line => negb (is_header line)) (show_plugins r) =
    map (fun e => function_line (snd e)) (catalog r) /\
  filter is_header (show_plugins r) = map plugin_header (dict_keys r) /\
  List.length (show_plugins r) = List.length r + List.length (catalog r).
Proof.
  split; [apply listing_sections|].
  unfold show_plugins, catalog, dict_items, dict_keys.
  induction r as [|[k fs] t [IH1 [IH2 IH3]]]; [repeat split|].
  assert (Hfs : filter (fun line => negb (is_header line))
                  (map (fun f : string * (FunctionDescriptor * Implementation W) =>
                          function_line (fst (snd f))) fs) =
                map (fun e => function_line (snd e)) (plugin_entries k fs) /\
                filter is_header
                  (map (fun f : string * (FunctionDescriptor * Implementation W) =>
                          function_line (fst (snd f))) fs) = []).
  { unfold plugin_entries. induction fs as [|f fs' [IHa IHb]]; [split; reflexivity|].
    cbn [map filter fst snd]. rewrite is_header_function_line.
    cbn [negb]. rewrite IHa, IHb. auto. }
  destruct Hfs as [Ha Hb].
  cbn [flat_map map fst snd app].
  split; [|split].
  - cbn [filter]. rewrite is_header_plugin_header. cbn [negb].
    rewrite filter_app, map_app, IH1, Ha. reflexivity.
  - cbn [filter]. rewrite is_header_plugin_header.
    rewrite filter_app, IH2, Hb. reflexivity.
  - cbn [List.length]. rewrite !length_app, IH3.
    unfold plugin_entries. rewrite !length_map. cbn [List.length]. lia.
Qed.

End UnregisterFacts.

(** ** Further properties of the conversation loop *)

Section SessionFacts.

Variable W : Type.
Variable svc : CompletionService W.

Implicit Types (s : Session W) (input : string) (inputs : list string).

Lemma printed_app (t1 t2 : list Event) : printed (t1 ++ t2) = printed t1 ++ printed t2.
Proof. unfold printed. apply flat_map_app. Qed.

Lemma requested_app (t1 t2 : list Event) :
  requested (t1 ++ t2) = requested t1 ++ requested t2.
Proof. unfold requested. apply flat_map_app. Qed.

Lemma requests_app (t1 t2 : list Event) :
  requests (t1 ++ t2) = requests t1 + requests t2.
Proof. unfold requests. now rewrite filter_app, length_app. Qed.

(** What one call leaves in the session, by the outcome of its request. *)
Lemma chat_with_assistant_unfold input s :
  chat_with_assistant svc input s =
    match svc (add_user_message input (history s)) execution_settings (kernel s) with
    | (Returned result, h2, w2) =>
        (Returned PyNone,
         {| history := h2 ++ [result];
            kernel := w2;
            trace := trace s ++
              [Printed ("User > " ++ input)%string;
               Requested (add_user_message input (history s)) execution_settings;
               Printed ("Assistant > " ++ message_text result)%string] |})
    | (Raised e, h2, w2) =>
        (Raised e,
         {| history := h2;
            kernel := w2;
            trace := trace s ++
              [Printed ("User > " ++ input)%string;
               Requested (add_user_message input (history s)) execution_settings] |})
    end.
Proof.
  unfold chat_with_assistant, add_message.
  destruct (svc _ _ _) as [[[result|e] h2] w2]; [|reflexivity].
  now rewrite <- app_assoc.
Qed.


Lemma chat_with_assistant_one_request input s :
  requests (trace (snd (chat_with_assistant svc input s))) = S (requests (trace s)).
Proof.
  rewrite chat_with_assistant_unfold.
  destruct (svc _ _ _) as [[[result|e] h2] w2]; simpl;
    rewrite requests_app; unfold requests; simpl; lia.
Qed.

(** X5. A cell issues at most one completion request per message, exactly
    one per message when it returns normally, and at least one before it
    can end with an exception. *)
Theorem run_cell_requests inputs s :
  requests (trace (snd (run_cell svc inputs s))) <=
    requests (trace s) + List.length inputs /\
  (forall v, fst (run_cell svc inputs s) = Returned v ->
     requests (trace (snd (run_cell svc inputs s))) =
       requests (trace s) + List.length inputs) /\
  (forall e, fst (run_cell svc inputs s) = Raised e ->
     requests (trace s) < requests (trace (snd (run_cell svc inputs s)))).
Proof.
  revert s. induction inputs as [|i rest IH]; intros s; simpl.
  - split; [lia|]. split; [intros; lia|discriminate].
  - pose proof (chat_with_assistant_one_request i s) as H1.
    destruct (chat_with_assistant svc i s) as [[v|e] s1]; simpl in H1.
    + destruct (IH s1) as [IHa [IHb IHc]].
      split; [lia|]. split.
      * intros v' Hv. rewrite (IHb v' Hv). lia.
      * intros e He. specialize (IHc e He). lia.
    + simpl. split; [lia|]. split; [discriminate|intros; lia].
Qed.

(** What a cell that returns normally leaves behind when the completion
    service does not touch the history. *)
Lemma run_cell_read_only inputs s v :
  read_only svc ->
  fst (run_cell svc inputs s) = Returned v ->
  List.length (service_replies svc inputs (history s) (kernel s)) =
    List.length inputs /\
  history (snd (run_cell svc inputs s)) =
    history s ++
    flat_map exchange_messages
      (combine inputs (service_replies svc inputs (history s) (kernel s))) /\
  printed (trace (snd (run_cell svc inputs s))) =
    printed (trace s) ++
    flat_map exchange_lines
      (combine inputs (service_replies svc inputs (history s) (kernel s))) /\
  requested (trace (snd (run_cell svc inputs s))) =
    requested (trace s) ++
    request_histories (history s)
      (combine inputs (service_replies svc inputs (history s) (kernel s))).
Proof.
  intros Hro. revert s. induction inputs as [|i rest IH]; intros s Hret;
    cbn [run_cell service_replies] in *.
  - simpl. now rewrite !app_nil_r.
  - rewrite chat_with_assistant_unfold in *.
    destruct (svc (add_user_message i (history s)) execution_settings (kernel s))
      as [[[result|e] h2] w2] eqn:E; [|discriminate].
    pose proof (Hro _ _ _ _ _ _ E) as ->.
    destruct (IH _ Hret) as [Hlen [Hh [Hp Hq]]]. clear IH.
    cbn [history kernel trace] in Hlen, Hh, Hp, Hq.
    assert (Hsame : add_user_message i (history s) ++ [result] =
                    history s ++ exchange_messages (i, result)).
    { unfold add_user_message, exchange_messages. simpl.
      now rewrite <- app_assoc. }
    rewrite Hsame in Hlen, Hh, Hp, Hq |- *.
    cbn [List.length combine flat_map request_histories fst snd].
    split; [now rewrite Hlen|]. split; [|split].
    + rewrite Hh. now rewrite <- !app_assoc.
    + rewrite Hp, !printed_app. cbn [printed flat_map app exchange_lines fst snd].
      now rewrite <- !app_assoc.
    + rewrite Hq, !requested_app. cbn [requested flat_map app].
      now rewrite <- !app_assoc.
Qed.

(** X6. With a completion service that does not touch the history, a cell
    that returns normally has one reply of the service for every input,
    the reply the service gave when it was sent that input after the
    conversation so far. The history has grown, for each input in turn, by
    the user message and that reply, and the lines printed are the
    matching [User >] and [Assistant >] lines in the same order. *)
Theorem run_cell_transcript inputs s v :
  read_only svc ->
  fst (run_cell svc inputs s) = Returned v ->
  List.length (service_replies svc inputs (history s) (kernel s)) =
    List.length inputs /\
  history (snd (run_cell svc inputs s)) =
    history s ++
    flat_map exchange_messages
      (combine inputs (service_replies svc inputs (history s) (kernel s))) /\
  printed (trace (snd (run_cell svc inputs s))) =
    printed (trace s) ++
    flat_map exchange_lines
      (combine inputs (service_replies svc inputs (history s) (kernel s))).
Proof.
  intros Hro Hret.
  destruct (run_cell_read_only inputs s Hro Hret) as [H1 [H2 [H3 _]]].
  auto.
Qed.

(** X8. With a completion service that does not touch the history, every
    request of a cell that returns normally carries the whole conversation
    so far: the history the cell started with, then each earlier user
    message followed by the reply the service gave to it, then the new
    user message. *)
Theorem run_cell_requests_carry_conversation inputs s v :
  read_only svc ->
  fst (run_cell svc inputs s) = Returned v ->
  requested (trace (snd (run_cell svc inputs s))) =
    requested (trace s) ++
    request_histories (history s)
      (combine inputs (service_replies svc inputs (history s) (kernel s))).
Proof.
  intros Hro Hret.
  now destruct (run_cell_read_only inputs s Hro Hret) as [_ [_ [_ H4]]].
Qed.

(** X7. There is no rollback of the user message: when a request fails
    without touching the history and the same input is sent again and
    answered, the history holds the user message twice before the reply. *)
Theorem retry_repeats_user_message input s e w2 result w3 :
  svc (add_user_message input (history s)) execution_settings (kernel s) =
    (Raised e, add_user_message input (history s), w2) ->
  svc (add_user_message input (add_user_message input (history s)))
      execution_settings w2 =
    (Returned result, add_user_message input (add_user_message input (history s)), w3) ->
  fst (chat_with_assistant svc input s) = Raised e /\
  fst (chat_with_assistant svc input (snd (chat_with_assistant svc input s))) =
    Returned PyNone /\
  history (snd (chat_with_assistant svc input (snd (chat_with_assistant svc input s)))) =
    history s ++ [ {| role := User; content := Text input |};
                   {| role := User; content := Text input |};
                   result ].
Proof.
  intros E1 E2.
  rewrite (chat_with_assistant_unfold input s), E1. simpl.
  rewrite chat_with_assistant_unfold. simpl. rewrite E2. simpl.
  split; [reflexivity|]. split; [reflexivity|].
  unfold add_user_message. now rewrite <- !app_assoc.
Qed.

(** X9. When a cell ends with an exception, its messages split into
    those answered before, the message whose request raised that
    exception, and the ones never sent; the session is the one the
    failing call left, and the last line printed is the [User >] line of
    that failing message: it was echoed, no [Assistant >] line follows. *)
Theorem failed_cell_ends_on_user_line inputs s e :
  fst (run_cell svc inputs s) = Raised e ->
  exists answered input unsent,
    inputs = answered ++ input :: unsent /\
    fst (run_cell svc answered s) = Returned PyNone /\
    (exists h2 w2,
        svc (add_user_message input (history (snd (run_cell svc answered s))))
            execution_settings (kernel (snd (run_cell svc answered s))) =
          (Raised e, h2, w2)) /\
    run_cell svc inputs s =
      chat_with_assistant svc input (snd (run_cell svc answered s)) /\
    last (printed (trace (snd (run_cell svc inputs s)))) "" =
      ("User > " ++ input)%string.
Proof.
  revert s. induction inputs as [|i rest IH]; intros s; [discriminate|].
  cbn [run_cell].
  destruct (chat_with_assistant svc i s) as [[v|e'] s1] eqn:C.
  - intros H. destruct (IH _ H) as [answered [input [unsent [-> [Hr [Hs [Hc Hl]]]]]]].
    exists (i :: answered), input, unsent.
    cbn [run_cell]. rewrite C.
    split; [reflexivity|]. split; [exact Hr|].
    split; [exact Hs|]. split; [exact Hc|exact Hl].
  - intros H. simpl in H. injection H as ->.
    exists [], i, rest. cbn [run_cell snd].
    rewrite chat_with_assistant_unfold in C.
    destruct (svc (add_user_message i (history s)) execution_settings (kernel s))
      as [[[result|e''] h2] w2] eqn:E; [discriminate|].
    injection C as -> <-.
    split; [reflexivity|]. split; [reflexivity|].
    split; [eauto|]. split.
    + rewrite chat_with_assistant_unfold, E. reflexivity.
    + cbn [trace]. rewrite printed_app. simpl. apply last_last.
Qed.

End SessionFacts.

Lemma unregister_removes_one_plugin_witness :
  List.length (snd (unregister "Lights" lights_registry)) + 1 =
    List.length lights_registry.
Proof.
  assert (Hnd : NoDup (dict_keys lights_registry)).
  { repeat constructor. simpl. tauto. }
  exact (proj1 (@unregister_removes_one_plugin Lights "Lights" lights_registry
                  Hnd eq_refl)).
Defined.

Lemma run_cell_transcript_witness :
  history (snd (run_cell answering_service
                  ["Can you turn on the table lamp light?";
                   "What about now? Are all the lights on?"] fresh_session)) =
    history fresh_session ++
    flat_map exchange_messages
      (combine ["Can you turn on the table lamp light?";
                "What about now? Are all the lights on?"]
         (service_replies answering_service
            ["Can you turn on the table lamp light?";
             "What about now? Are all the lights on?"]
            (history fresh_session) (kernel fresh_session))).
Proof.
  assert (R : read_only answering_service).
  { intros h st w o h' w' H. inversion H. reflexivity. }
  exact (proj1 (proj2 (@run_cell_transcript nat answering_service
                         ["Can you turn on the table lamp light?";
                          "What about now? Are all the lights on?"]
                         fresh_session PyNone R eq_refl))).
Defined.

Lemma retry_repeats_user_message_witness :
  history (snd (chat_with_assistant flaky_service "Can you turn on the table lamp light?"
                  (snd (chat_with_assistant flaky_service
                          "Can you turn on the table lamp light?" fresh_session)))) =
    [ {| role := User; content := Text "Can you turn on the table lamp light?" |};
      {| role := User; content := Text "Can you turn on the table lamp light?" |};
      {| role := Assistant; content := Text "The Table Lamp is now turned on." |} ].
Proof.
  exact (proj2 (proj2 (@retry_repeats_user_message nat flaky_service
                         "Can you turn on the table lamp light?" fresh_session
                         CompletionUnavailableError 1
                         {| role := Assistant;
                            content := Text "The Table Lamp is now turned on." |}
                         2 eq_refl eq_refl))).
Defined.

Lemma run_cell_requests_carry_conversation_witness :
  requested (trace (snd (run_cell answering_service
                           ["Can you turn on the table lamp light?";
                            "What about now? Are all the lights on?"] fresh_session))) =
    [ [ {| role := User; content := Text "Can you turn on the table lamp light?" |} ];
      [ {| role := User; content := Text "Can you turn on the table lamp light?" |};
        {| role := Assistant;
           content := Text "Here is the current state of all the lights." |};
        {| role := User; content := Text "What about now? Are all the lights on?" |} ] ].
Proof.
  assert (R : read_only answering_service).
  { intros h st w o h' w' H. inversion H. reflexivity. }
  exact (@run_cell_requests_carry_conversation nat answering_service
           ["Can you turn on the table lamp light?";
            "What about now? Are all the lights on?"]
           fresh_session PyNone R eq_refl).
Defined.

Lemma failed_cell_ends_on_user_line_witness :
  exists answered input unsent,
    ["Can you turn on the table lamp light?"; "What about now?"] =
      answered ++ input :: unsent /\
    last (printed (trace (snd (run_cell flaky_service
                                 ["Can you turn on the table lamp light?";
                                  "What about now?"]
                                 fresh_session)))) "" =
      ("User > " ++ input)%string.
Proof.
  destruct (@failed_cell_ends_on_user_line nat flaky_service
              ["Can you turn on the table lamp light?"; "What about now?"]
              fresh_session CompletionUnavailableError eq_refl)
    as [answered [input [unsent [H1 [_ [_ [_ H5]]]]]]].
  exists answered, input, unsent.
  split; [exact H1|exact H5].
Defined.

Lemma listing_matches_catalog_witness :
  show_plugins (registry_after interleaved_ops) =
    flat_map
      (fun ns => plugin_header ns
                 :: map (fun e => function_line (snd e))
                      (filter (in_namespace ns)
                         (catalog (registry_after interleaved_ops))))
      (dict_keys (registry_after interleaved_ops)).
Proof.
  assert (Hnd : NoDup (dict_keys (registry_after interleaved_ops))).
  { repeat constructor; simpl; intuition discriminate. }
  exact (proj1 (@listing_matches_catalog Lights (registry_after interleaved_ops)) Hnd).
Defined.
